(** * Ball simulation ([logic.py]): shallow embedding and verified properties

    The program is a Python module with two classes, [Ball] and [GameLogic].
    Python [float]s are IEEE-754 binary64 values, so they are embedded as Rocq's
    primitive floats ([PrimFloat]), whose operations are the same correctly
    rounded binary64 operations; Python [int]s are [Z].  Ball objects are
    mutable and shared by reference between [GameLogic.balls] and
    [GameLogic.inventory], so the embedding keeps an object store indexed by
    references and the two lists hold references.

    Typing follows the annotations of the source: positions, radius and
    velocities are floats, screen sizes and color channels are ints. *)

From Stdlib Require Import ZArith Floats Lia List Bool.
From Stdlib Require String Ascii.
From stdpp Require Import base tactics option list functions gmap.

Set Warnings "-inexact-float".
Local Open Scope Z_scope.

(** ** Python's numeric operations on [int] and [float] *)

Module Py.

(** [float(n)] for an int [n]: the nearest binary64 value (ties to even).
    CPython raises [OverflowError] when [|n|] rounds to [2^1024] or more;
    here such an [n] maps to an infinity.  No int of the program's
    documented ranges comes near that bound. *)
Definition Z2F (z : Z) : float :=
  SF2Prim (binary_normalize prec emax z 0 false).

(** Exact three-way comparison of a float with an int, as CPython's
    [float_richcompare] does it; [None] when the float is a NaN. *)
Definition cmp_float_int (f : float) (z : Z) : option comparison :=
  match Prim2SF f with
  | S754_nan => None
  | S754_infinity s => Some (if s then Lt else Gt)
  | S754_zero _ => Some (0 ?= z)
  | S754_finite s m e =>
      let n := if s then Z.neg m else Z.pos m in
      Some (if 0 <=? e then (n * 2 ^ e ?= z) else (n ?= z * 2 ^ (- e)))
  end.

(** [f < z], [f <= z], [f > z], [f >= z] for a float [f] and an int [z]. *)
Definition flt (f : float) (z : Z) : bool :=
  match cmp_float_int f z with Some Lt => true | _ => false end.
Definition fle (f : float) (z : Z) : bool :=
  match cmp_float_int f z with Some Lt | Some Eq => true | _ => false end.
Definition fgt (f : float) (z : Z) : bool :=
  match cmp_float_int f z with Some Gt => true | _ => false end.
Definition fge (f : float) (z : Z) : bool :=
  match cmp_float_int f z with Some Gt | Some Eq => true | _ => false end.

(** C's [fmod]: the exact remainder of [a] by [b] with the sign of [a];
    it is [a] itself when [|a| < |b|]. *)
Definition fmod (a b : float) : float :=
  if (abs a <? abs b)%float then a
  else
    match Prim2SF a, Prim2SF b with
    | S754_nan, _ | _, S754_nan => nan
    | S754_infinity _, _ | _, S754_zero _ => nan
    | S754_zero _, _ | _, S754_infinity _ => a
    | S754_finite sa ma ea, S754_finite _ mb eb =>
        let k := Z.min ea eb in
        let r := Z.shiftl (Z.pos ma) (ea - k) mod Z.shiftl (Z.pos mb) (eb - k) in
        SF2Prim (binary_normalize prec emax (if sa then - r else r) k sa)
    end.

(** [v % w] on floats (CPython's [float_rem]): [fmod], moved to the sign
    of the divisor.  The program's only divisor is the constant 255, so
    the [ZeroDivisionError] case does not arise. *)
Definition float_rem (v w : float) : float :=
  let m := fmod v w in
  if is_zero m then (if get_sign w then (-0)%float else 0%float)
  else if xorb (w <? 0)%float (m <? 0)%float then (m + w)%float else m.

(** [int(f)]: truncation toward zero.  CPython raises on a NaN or an
    infinity; here they map to 0. *)
Definition int (f : float) : Z :=
  match Prim2SF f with
  | S754_finite s m e =>
      let a := Z.shiftl (Z.pos m) e in if s then - a else a
  | _ => 0
  end.

(** [min(a, n)] for a float [a] and an int [n]: Python keeps the first
    argument unless the second is strictly smaller. *)
Definition min_float_int (a : float) (n : Z) : float :=
  if fgt a n then Z2F n else a.

(** [math.sqrt] on a non-negative argument, a NaN or an infinity. *)
Definition math_sqrt (f : float) : float := PrimFloat.sqrt f.

(** [m / n] on ints (true division), for ints that are exact as floats. *)
Definition int_truediv (m n : Z) : float := (Z2F m / Z2F n)%float.

End Py.

(** The library functions the program calls whose results are not fixed by
    the program text: the module-level generator of [random] (its state is
    threaded explicitly) and [math.cos], [math.sin]. *)
Class PyLib : Type := {
  rng : Type;
  random_uniform : float -> float -> rng -> float * rng;
  random_randint : Z -> Z -> rng -> Z * rng;
  math_cos : float -> float;
  math_sin : float -> float
}.

Definition math_pi : float := 3.141592653589793%float.

(** [speed = random.uniform(lo, hi); angle = random.uniform(0, 2 * math.pi)]
    and the velocity [(speed * cos(angle), speed * sin(angle))] built from
    them, as [Ball.__init__] and [GameLogic.eject_ball] do. *)
Definition random_velocity `{PyLib} (lo hi : Z) (g : rng) : (float * float) * rng :=
  let '(speed, g) := random_uniform (Py.Z2F lo) (Py.Z2F hi) g in
  let '(angle, g) := random_uniform 0%float (2 * math_pi)%float g in
  (((speed * math_cos angle)%float, (speed * math_sin angle)%float), g).

(** ** class Ball *)

Module Ball.

Record t : Type := mk {
  x : float;
  y : float;
  radius : float;
  color : Z * Z * Z;
  velocity : float * float
}.

Definition set_color (c : Z * Z * Z) (self : t) : t :=
  mk (x self) (y self) (radius self) c (velocity self).
Definition set_velocity (v : float * float) (self : t) : t :=
  mk (x self) (y self) (radius self) (color self) v.
Definition set_position (px py : float) (self : t) : t :=
  mk px py (radius self) (color self) (velocity self).

(** [Ball.__init__(x, y, radius, color, velocity)]; [None] for [color] or
    [velocity] draws it from the generator. *)
Definition init `{PyLib} (px py rad : float) (col : option (Z * Z * Z))
    (vel : option (float * float)) (g : rng) : t * rng :=
  let '(c, g) :=
    match col with
    | None =>
        let '(cr, g) := random_randint 50 255 g in
        let '(cg, g) := random_randint 50 255 g in
        let '(cb, g) := random_randint 50 255 g in
        ((cr, cg, cb), g)
    | Some c => (c, g)
    end in
  let '(v, g) :=
    match vel with
    | None => random_velocity 1 3 g
    | Some v => (v, g)
    end in
  (mk px py rad c v, g).

(** Default of the [radius] parameter of [Ball.__init__]. *)
Definition default_radius : float := 15%float.

(** Default of the [friction] parameter of [Ball.update]. *)
Definition default_friction : float := 0.98%float.

(** One axis of the bounce in [Ball.update]: the moved coordinate [p] and
    the velocity component [v] after friction, against the bound [bound]. *)
Definition bounce (p rad v : float) (bound : Z) : float * float :=
  if Py.flt (p - rad)%float 0 then (rad, (abs v * 0.8)%float)
  else if Py.fgt (p + rad)%float bound then
    ((Py.Z2F bound - rad)%float, (- abs v * 0.8)%float)
  else (p, v).

(** [Ball.update(self, screen_width, screen_height, friction)]. *)
Definition update (screen_width screen_height : Z) (friction : float)
    (self : t) : t :=
  let '(vx, vy) := velocity self in
  let vx := (vx * friction)%float in
  let vy := (vy * friction)%float in
  let x1 := (x self + vx)%float in
  let y1 := (y self + vy)%float in
  let '(x2, vx2) := bounce x1 (radius self) vx screen_width in
  let '(y2, vy2) := bounce y1 (radius self) vy screen_height in
  mk x2 y2 (radius self) (color self) (vx2, vy2).

Definition distance_to (self other : t) : float :=
  let dx := (x self - x other)%float in
  let dy := (y self - y other)%float in
  Py.math_sqrt (dx * dx + dy * dy)%float.

Definition is_colliding (self other : t) : bool :=
  (distance_to self other <=? radius self + radius other)%float.

Definition is_point_inside (self : t) (px py : float) : bool :=
  let dx := (px - x self)%float in
  let dy := (py - y self)%float in
  (dx * dx + dy * dy <=? radius self * radius self)%float.

End Ball.

(** ** class GameLogic *)

Module GameLogic.

(** A reference to a Ball object (its identity). *)
Definition ref : Type := nat.

(** The instance attributes of [GameLogic], together with the store of the
    Ball objects the two lists refer to and the next unused reference. *)
Record t : Type := mk {
  screen_width : Z;
  screen_height : Z;
  store : ref -> Ball.t;
  next_ref : ref;
  balls : list ref;
  inventory : list ref;
  delete_zone_size : Z;
  delete_zone_x : Z;
  delete_zone_y : Z;
  suction_range : Z;
  suction_active : bool;
  suction_mouse_pos : float * float
}.

Definition set_store (s : ref -> Ball.t) (self : t) : t :=
  mk (screen_width self) (screen_height self) s (next_ref self)
     (balls self) (inventory self) (delete_zone_size self)
     (delete_zone_x self) (delete_zone_y self) (suction_range self)
     (suction_active self) (suction_mouse_pos self).
Definition set_balls (l : list ref) (self : t) : t :=
  mk (screen_width self) (screen_height self) (store self) (next_ref self)
     l (inventory self) (delete_zone_size self)
     (delete_zone_x self) (delete_zone_y self) (suction_range self)
     (suction_active self) (suction_mouse_pos self).
Definition set_inventory (l : list ref) (self : t) : t :=
  mk (screen_width self) (screen_height self) (store self) (next_ref self)
     (balls self) l (delete_zone_size self)
     (delete_zone_x self) (delete_zone_y self) (suction_range self)
     (suction_active self) (suction_mouse_pos self).

Definition dummy_ball : Ball.t :=
  Ball.mk 0%float 0%float 0%float (0, 0, 0) (0%float, 0%float).

(** [GameLogic.__init__(screen_width, screen_height)]. *)
Definition init (screen_width screen_height : Z) : t :=
  let delete_zone_size := 100 in
  mk screen_width screen_height (fun _ => dummy_ball) 0%nat [] []
     delete_zone_size (screen_width - delete_zone_size) 0
     100 false (0%float, 0%float).

(** [add_ball(x, y, color)]: returns the new ball. *)
Definition add_ball `{PyLib} (px py : option float) (col : option (Z * Z * Z))
    (self : t) (g : rng) : ref * t * rng :=
  let '(px, g) :=
    match px with
    | None => random_uniform (Py.Z2F 50) (Py.Z2F (screen_width self - 50)) g
    | Some v => (v, g)
    end in
  let '(py, g) :=
    match py with
    | None => random_uniform (Py.Z2F 50) (Py.Z2F (screen_height self - 50)) g
    | Some v => (v, g)
    end in
  let '(ball, g) := Ball.init px py Ball.default_radius col None g in
  let r := next_ref self in
  (r,
   mk (screen_width self) (screen_height self) (<[ r := ball ]> (store self))
      (S r) (balls self ++ [r]) (inventory self) (delete_zone_size self)
      (delete_zone_x self) (delete_zone_y self) (suction_range self)
      (suction_active self) (suction_mouse_pos self),
   g).

(** *** Color mixing *)

(** One channel before darkening: [int((c1 * 0.6 + c2 * 0.4) % 255)]. *)
Definition mix_channel (c1 c2 : Z) : Z :=
  Py.int (Py.float_rem (Py.Z2F c1 * 0.6 + Py.Z2F c2 * 0.4)%float (Py.Z2F 255)).

Definition brightness (c : Z * Z * Z) : float :=
  let '(r, g, b) := c in Py.int_truediv (r + g + b) 3.

(** The [if brightness > 200] block of [_mix_colors]. *)
Definition darken (c : Z * Z * Z) : Z * Z * Z :=
  let '(mixed_r, mixed_g, mixed_b) := c in
  if Py.fgt (brightness c) 200 then
    if (mixed_g <? mixed_r) && (mixed_b <? mixed_r) then
      (mixed_r, Z.max 50 (mixed_g - 50), Z.max 50 (mixed_b - 50))
    else if (mixed_r <? mixed_g) && (mixed_b <? mixed_g) then
      (Z.max 50 (mixed_r - 50), mixed_g, Z.max 50 (mixed_b - 50))
    else
      (Z.max 50 (mixed_r - 50), Z.max 50 (mixed_g - 50), mixed_b)
  else c.

(** The color before darkening. *)
Definition premix (c1 c2 : Z * Z * Z) : Z * Z * Z :=
  let '(r1, g1, b1) := c1 in
  let '(r2, g2, b2) := c2 in
  (mix_channel r1 r2, mix_channel g1 g2, mix_channel b1 b2).

Definition mixed_color (c1 c2 : Z * Z * Z) : Z * Z * Z :=
  darken (premix c1 c2).

(** [_mix_colors(ball1, ball2)]: both colors are read first, then
    [ball1.color] and [ball2.color] are assigned in that order. *)
Definition _mix_colors (ball1 ball2 : ref) (s : ref -> Ball.t)
    : ref -> Ball.t :=
  let c := mixed_color (Ball.color (s ball1)) (Ball.color (s ball2)) in
  let s := alter (Ball.set_color c) ball1 s in
  alter (Ball.set_color c) ball2 s.

(** *** Collisions *)

(** [enumerate(l, start)]. *)
Definition enumerate {A} (start : nat) (l : list A) : list (nat * A) :=
  zip (seq start (length l)) l.

(** The body of the inner loop of [_handle_collisions]. *)
Definition collide_pair (i : nat) (ball1 : ref)
    (acc : (ref -> Ball.t) * gset (nat * nat)) (jb : nat * ref)
    : (ref -> Ball.t) * gset (nat * nat) :=
  let '(s, checked_pairs) := acc in
  let '(j, ball2) := jb in
  let pair := (Nat.min i j, Nat.max i j) in
  if decide (pair ∈ checked_pairs) then acc
  else
    let checked_pairs := checked_pairs ∪ {[ pair ]} in
    if Ball.is_colliding (s ball1) (s ball2)
    then (_mix_colors ball1 ball2 s, checked_pairs)
    else (s, checked_pairs).

Definition collide_row (l : list ref)
    (acc : (ref -> Ball.t) * gset (nat * nat)) (ib : nat * ref)
    : (ref -> Ball.t) * gset (nat * nat) :=
  let '(i, ball1) := ib in
  foldl (collide_pair i ball1) acc (enumerate (i + 1) (drop (i + 1) l)).

Definition _handle_collisions (self : t) : t :=
  let l := balls self in
  set_store (fst (foldl (collide_row l) (store self, ∅) (enumerate 0 l))) self.

(** *** Suction *)

Definition start_suction (mouse_x mouse_y : float) (self : t) : t :=
  mk (screen_width self) (screen_height self) (store self) (next_ref self)
     (balls self) (inventory self) (delete_zone_size self)
     (delete_zone_x self) (delete_zone_y self) (suction_range self)
     true (mouse_x, mouse_y).

Definition stop_suction (self : t) : t :=
  mk (screen_width self) (screen_height self) (store self) (next_ref self)
     (balls self) (inventory self) (delete_zone_size self)
     (delete_zone_x self) (delete_zone_y self) (suction_range self)
     false (suction_mouse_pos self).

(** Distance of a ball to the mouse, as the loop of [_process_suction]
    computes it. *)
Definition suction_distance (mouse : float * float) (b : Ball.t) : float :=
  let dx := (Ball.x b - fst mouse)%float in
  let dy := (Ball.y b - snd mouse)%float in
  Py.math_sqrt (dx * dx + dy * dy)%float.

(** The velocity assigned to an attracted ball. *)
Definition pulled_velocity (range : Z) (mouse : float * float) (b : Ball.t)
    : float * float :=
  let dx := (Ball.x b - fst mouse)%float in
  let dy := (Ball.y b - snd mouse)%float in
  let distance := Py.math_sqrt (dx * dx + dy * dy)%float in
  let pull_strength := ((Py.Z2F range - distance) / Py.Z2F range)%float in
  let pull_strength := Py.min_float_int (pull_strength * 5)%float 10 in
  let '(dir_x, dir_y) :=
    if Py.fgt distance 0 then ((dx / distance)%float, (dy / distance)%float)
    else (0%float, 0%float) in
  let '(vx, vy) := Ball.velocity b in
  ((vx + dir_x * pull_strength * 0.3)%float,
   (vy + dir_y * pull_strength * 0.3)%float).

(** Whether the loop appends the ball to the inventory. *)
Definition swallowed (range : Z) (mouse : float * float) (b : Ball.t) : bool :=
  let distance := suction_distance mouse b in
  Py.fle distance range && (distance <? Ball.radius b + 10)%float.

(** The body of the first loop of [_process_suction]; the accumulator is
    the store, [self.inventory] and [balls_to_remove]. *)
Definition suction_step (range : Z) (mouse : float * float)
    (acc : (ref -> Ball.t) * list ref * list ref) (ball : ref)
    : (ref -> Ball.t) * list ref * list ref :=
  let '(s, inv, balls_to_remove) := acc in
  let b := s ball in
  let distance := suction_distance mouse b in
  if Py.fle distance range then
    let s := alter (Ball.set_velocity (pulled_velocity range mouse b)) ball s in
    if (distance <? Ball.radius b + 10)%float
    then (s, inv ++ [ball], balls_to_remove ++ [ball])
    else (s, inv, balls_to_remove)
  else acc.

(** [list.remove(x)]: drops the first occurrence of [x].  Python raises
    [ValueError] when there is none; the program removes only elements it
    has just read from the list (or guards the call with [in]), and here
    an absent element leaves the list as it is. *)
Fixpoint list_remove_first (r : ref) (l : list ref) : list ref :=
  match l with
  | [] => []
  | a :: l' => if decide (a = r) then l' else a :: list_remove_first r l'
  end.

(** The second loop of [_process_suction]. *)
Definition remove_guarded (l : list ref) (ball : ref) : list ref :=
  if decide (ball ∈ l) then list_remove_first ball l else l.

Definition _process_suction (self : t) : t :=
  let '(s, inv, balls_to_remove) :=
    foldl (suction_step (suction_range self) (suction_mouse_pos self))
          (store self, inventory self, []) (balls self) in
  set_balls (foldl remove_guarded (balls self) balls_to_remove)
    (set_inventory inv (set_store s self)).

(** *** Ejection *)

(** [list.pop()] on a non-empty list: the list without its last element,
    and that element. *)
Definition pop (l : list ref) : option (list ref * ref) :=
  match last l with
  | None => None
  | Some a => Some (removelast l, a)
  end.

(** [eject_ball(mouse_x, mouse_y, velocity)]; the result [None] is
    Python's [None]. *)
Definition eject_ball `{PyLib} (mouse_x mouse_y : float)
    (vel : option (float * float)) (self : t) (g : rng)
    : option ref * t * rng :=
  match pop (inventory self) with
  | None => (None, self, g)
  | Some (inv, ball) =>
      let s := alter (Ball.set_position mouse_x mouse_y) ball (store self) in
      let '(v, g) :=
        match vel with
        | None => random_velocity 2 5 g
        | Some v => (v, g)
        end in
      let s := alter (Ball.set_velocity v) ball s in
      (Some ball,
       mk (screen_width self) (screen_height self) s (next_ref self)
          (balls self ++ [ball]) inv (delete_zone_size self)
          (delete_zone_x self) (delete_zone_y self) (suction_range self)
          (suction_active self) (suction_mouse_pos self),
       g)
  end.

(** *** Delete zone *)

(** [is_in_delete_zone(x, y)]. *)
Definition is_in_delete_zone (self : t) (px py : float) : bool :=
  (Py.fge px (delete_zone_x self) && Py.fle px (screen_width self))
  && (Py.fge py 0 && Py.fle py (delete_zone_size self)).

(** The test in the loop of [_check_delete_zone]. *)
Definition ball_in_delete_zone (self : t) (ball : ref) : bool :=
  let b := store self ball in
  (Py.fge (Ball.x b) (delete_zone_x self) && Py.fle (Ball.x b) (screen_width self))
  && (Py.fge (Ball.y b) 0 && Py.fle (Ball.y b) (delete_zone_size self)).

Definition _check_delete_zone (self : t) : t :=
  let balls_to_remove := filter (fun ball => ball_in_delete_zone self ball = true) (balls self) in
  set_balls (foldl (fun l ball => list_remove_first ball l) (balls self) balls_to_remove) self.

(** [get_delete_zone_bounds()]: [(x, y, width, height)]. *)
Definition get_delete_zone_bounds (self : t) : Z * Z * Z * Z :=
  (delete_zone_x self, delete_zone_y self,
   delete_zone_size self, delete_zone_size self).

(** [get_ball_at_position(x, y)]. *)
Definition get_ball_at_position (self : t) (px py : float) : option ref :=
  head (filter (fun ball => Ball.is_point_inside (store self ball) px py = true) (balls self)).

(** *** The frame update *)

Definition advance_all (self : t) : t :=
  set_store
    (foldl (fun s ball =>
              alter (Ball.update (screen_width self) (screen_height self)
                          Ball.default_friction) ball s)
           (store self) (balls self))
    self.

Definition update (self : t) : t :=
  let self := advance_all self in
  let self := _handle_collisions self in
  let self := if suction_active self then _process_suction self else self in
  _check_delete_zone self.

(** States a program reaches by constructing a [GameLogic] and calling
    its public methods. *)
Inductive reachable `{PyLib} : t -> Prop :=
| reach_init w h : reachable (init w h)
| reach_add_ball px py col self g :
    reachable self -> reachable (snd (fst (add_ball px py col self g)))
| reach_update self : reachable self -> reachable (update self)
| reach_start_suction mx my self :
    reachable self -> reachable (start_suction mx my self)
| reach_stop_suction self : reachable self -> reachable (stop_suction self)
| reach_eject_ball mx my vel self g :
    reachable self -> reachable (snd (fst (eject_ball mx my vel self g))).

End GameLogic.

(** A deterministic instance of the library interface, used to run the
    model on concrete inputs: every draw returns the lower bound, and the
    trigonometric functions are constant. *)
Definition fixed_lib : PyLib := {|
  rng := unit;
  random_uniform := fun lo _ g => (lo, g);
  random_randint := fun lo _ g => (lo, g);
  math_cos := fun _ => 1%float;
  math_sin := fun _ => 0%float
|}.

(** ** Python's [format(n, "02x")], which [gui.py] uses *)

Module PyFormat.

(** The lowercase hexadecimal digit of [d], for [0 <= d < 16]. *)
Definition hex_digit (d : Z) : Ascii.ascii :=
  Ascii.ascii_of_nat (Z.to_nat (if d <? 10 then 48 + d else 87 + d)).

(** The hexadecimal digits of [n >= 0] in front of [acc], most significant
    first; [fuel] bounds the number of digits. *)
Fixpoint hex_digits (fuel : nat) (n : Z) (acc : String.string) : String.string :=
  let acc' := String.String (hex_digit (n mod 16)) acc in
  match fuel with
  | O => acc'
  | S fuel' => if n <? 16 then acc' else hex_digits fuel' (n / 16) acc'
  end.

Definition hex (n : Z) : String.string :=
  hex_digits (Z.to_nat (Z.log2 n)) n String.EmptyString.

Fixpoint zeros (k : nat) : String.string :=
  match k with
  | O => String.EmptyString
  | S k' => String.String (hex_digit 0) (zeros k')
  end.

(** [format(n, "02x")] for an int [n]: the sign of a negative [n], then the
    hexadecimal digits of [|n|], filled with zeros after the sign up to a
    total width of 2. *)
Definition format_02x (n : Z) : String.string :=
  let sign := if n <? 0 then String.String (Ascii.ascii_of_nat 45) String.EmptyString
              else String.EmptyString in
  let digits := hex (Z.abs n) in
  String.append sign
    (String.append (zeros (2 - String.length sign - String.length digits)) digits).

End PyFormat.

(** ** [gui.py]: class GameWindow

    The window holds the game and the mouse state.  Tk delivers events one
    at a time; the timer event is the call of [update] that [update] itself
    schedules with [after].  Event coordinates are ints; they are converted
    where a method of [GameLogic] receives them as float arguments.  The
    canvas is written and never read, so it is not part of the state. *)

Module GameWindow.

Definition SCREEN_WIDTH : Z := 800.
Definition SCREEN_HEIGHT : Z := 600.
Definition STARTING_BALLS : nat := 10.

Record t : Type := mk {
  game : GameLogic.t;
  mouse_pressed : bool;
  mouse_x : Z;
  mouse_y : Z
}.

(** [GameWindow.rgb_to_hex(rgb)]: [f"#{r:02x}{g:02x}{b:02x}"]. *)
Definition rgb_to_hex (rgb : Z * Z * Z) : String.string :=
  let '(r, g, b) := rgb in
  String.String (Ascii.ascii_of_nat 35)
    (String.append (PyFormat.format_02x r)
       (String.append (PyFormat.format_02x g) (PyFormat.format_02x b))).

(** [update()]: one step of the game; the drawing reads the game only. *)
Definition update (self : t) : t :=
  mk (GameLogic.update (game self)) (mouse_pressed self) (mouse_x self)
     (mouse_y self).

(** [for _ in range(n): self.game.add_ball()]. *)
Fixpoint add_starting_balls `{PyLib} (n : nat) (g : GameLogic.t) (rs : rng)
    : GameLogic.t * rng :=
  match n with
  | O => (g, rs)
  | S n' =>
      add_starting_balls n'
        (snd (fst (GameLogic.add_ball None None None g rs)))
        (snd (GameLogic.add_ball None None None g rs))
  end.

(** [__init__()], up to the entry into the main loop: the game with its
    starting balls after the first call of [update]. *)
Definition init `{PyLib} (rs : rng) : t * rng :=
  let start :=
    add_starting_balls STARTING_BALLS
      (GameLogic.init SCREEN_WIDTH SCREEN_HEIGHT) rs in
  (update (mk (fst start) false 0 0), snd start).

Definition on_mouse_down (ex ey : Z) (self : t) : t :=
  mk (GameLogic.start_suction (Py.Z2F ex) (Py.Z2F ey) (game self)) true ex ey.

Definition on_mouse_up (self : t) : t :=
  mk (GameLogic.stop_suction (game self)) false (mouse_x self) (mouse_y self).

Definition on_mouse_move (ex ey : Z) (self : t) : t :=
  mk (if mouse_pressed self
      then GameLogic.start_suction (Py.Z2F ex) (Py.Z2F ey) (game self)
      else game self)
     (mouse_pressed self) ex ey.

Definition on_right_click `{PyLib} (ex ey : Z) (self : t) (rs : rng) : t * rng :=
  let r := GameLogic.eject_ball (Py.Z2F ex) (Py.Z2F ey) None (game self) rs in
  (mk (snd (fst r)) (mouse_pressed self) (mouse_x self) (mouse_y self), snd r).

Definition on_space_press `{PyLib} (self : t) (rs : rng) : t * rng :=
  let r := GameLogic.add_ball (Some (Py.Z2F (mouse_x self)))
             (Some (Py.Z2F (mouse_y self))) None (game self) rs in
  (mk (snd (fst r)) (mouse_pressed self) (mouse_x self) (mouse_y self), snd r).

(** The events bound in [__init__], and the timer. *)
Inductive event : Type :=
| ButtonPress1 (ex ey : Z)
| ButtonRelease1 (ex ey : Z)
| Motion (ex ey : Z)
| Button3 (ex ey : Z)
| KeyPressSpace
| Timer.

Definition handle `{PyLib} (e : event) (self : t) (rs : rng) : t * rng :=
  match e with
  | ButtonPress1 ex ey => (on_mouse_down ex ey self, rs)
  | ButtonRelease1 _ _ => (on_mouse_up self, rs)
  | Motion ex ey => (on_mouse_move ex ey self, rs)
  | Button3 ex ey => on_right_click ex ey self rs
  | KeyPressSpace => on_space_press self rs
  | Timer => (update self, rs)
  end.

(** The main loop on a sequence of events. *)
Fixpoint run `{PyLib} (events : list event) (self : t) (rs : rng) : t * rng :=
  match events with
  | [] => (self, rs)
  | e :: events' => run events' (fst (handle e self rs)) (snd (handle e self rs))
  end.

(** A whole session: [GameWindow()] and the events that follow. *)
Definition session `{PyLib} (events : list event) (rs : rng) : t :=
  fst (run events (fst (init rs)) (snd (init rs))).

Definition is_space (e : event) : bool :=
  match e with KeyPressSpace => true | _ => false end.

End GameWindow.

(** * Predicates and inputs of the statements *)

(** ** Colors *)

(** The mixing rule as the specification words it, to be compared with
    [GameLogic.mixed_color]: each channel is
    [floor(c1*0.6 + c2*0.4) mod 255], the products and the sum being those
    of binary64 arithmetic; when the mean of the three channels exceeds
    200, the strictly dominant channel (r tried first, then g, every other
    case darkening r and g) keeps its value and the other two become
    [max(50, value - 50)]. *)
Module ColorSpec.

(** The exact floor of a finite float [n * 2^e]: for [e < 0] the shift is
    the division by [2^(-e)] rounded down. *)
Definition floor (f : float) : Z :=
  match Prim2SF f with
  | S754_finite s m e => Z.shiftl (if s then Z.neg m else Z.pos m) e
  | _ => 0
  end.

Definition channel (c1 c2 : Z) : Z :=
  floor (Py.Z2F c1 * 0.6 + Py.Z2F c2 * 0.4)%float mod 255.

(** The mean [(r + g + b) / 3] exceeds 200. *)
Definition mean_exceeds_200 (r g b : Z) : bool := 200 * 3 <? r + g + b.

Definition dark (v : Z) : Z := Z.max 50 (v - 50).

Definition darken (c : Z * Z * Z) : Z * Z * Z :=
  let '(r, g, b) := c in
  if mean_exceeds_200 r g b then
    if (g <? r) && (b <? r) then (r, dark g, dark b)
    else if (r <? g) && (b <? g) then (dark r, g, dark b)
    else (dark r, dark g, b)
  else c.

Definition mix (c1 c2 : Z * Z * Z) : Z * Z * Z :=
  let '(r1, g1, b1) := c1 in
  let '(r2, g2, b2) := c2 in
  darken (channel r1 r2, channel g1 g2, channel b1 b2).

End ColorSpec.

(** A color whose three channels lie in the documented range 0..255. *)
Definition channel_ok (c : Z) : Prop := 0 <= c <= 255.
Definition color_ok (c : Z * Z * Z) : Prop :=
  let '(r, g, b) := c in channel_ok r /\ channel_ok g /\ channel_ok b.

(** The ints [0 .. n-1], and bounded quantification over them, decided by
    evaluation. *)
Definition zrange (n : nat) : list Z := List.map Z.of_nat (List.seq 0 n).
Definition forall1b (n : nat) (P : Z -> bool) : bool :=
  forallb P (zrange n).

(** The same over pairs, for a property [Q w] of the floats [g a] and
    [h b]; [w], each [g a] and each [h b] are named once, outside the inner
    loop. *)
Definition forall2f (n : nat) (w : float) (g h : Z -> float)
    (Q : float -> float -> float -> bool) : bool :=
  let hs := List.map h (zrange n) in
  forallb (fun a => let fa := g a in forallb (fun fb => Q w fa fb) hs) (zrange n).

(** The two products of a channel, and the agreement of the code's channel
    [int(f % w)] with the specified one, [floor(f) mod 255], on their sum
    [f]; [w] is the float of the divisor 255. *)
Definition weigh6 (c : Z) : float := (Py.Z2F c * 0.6)%float.
Definition weigh4 (c : Z) : float := (Py.Z2F c * 0.4)%float.
Definition rem_agrees (w f1 f2 : float) : bool :=
  let f := (f1 + f2)%float in
  Py.int (Py.float_rem f w) =? ColorSpec.floor f mod 255.

(** The brightness test of the code is the exact comparison of the mean
    with 200. *)
Definition brightness_agrees (s : Z) : bool :=
  Bool.eqb (Py.fgt (Py.int_truediv s 3) 200) (200 * 3 <? s).

(** A store holding two balls, at references 0 and 1, that differ from the
    dummy ball in their colors only. *)
Definition two_colors (c1 c2 : Z * Z * Z) : GameLogic.ref -> Ball.t :=
  <[ 1%nat := Ball.set_color c2 GameLogic.dummy_ball ]>
    (<[ 0%nat := Ball.set_color c1 GameLogic.dummy_ball ]>
       (fun _ => GameLogic.dummy_ball)).

(** ** Ball kinematics *)

(** A ball at x = 16 with radius 15 and velocity (-2, 0): one frame takes
    its left edge across x = 0. *)
Definition left_ball : Ball.t :=
  Ball.mk 16 300 15 (255, 0, 0) ((-2)%float, 0%float).

(** A resting ball of radius 15 at (10, 10). *)
Definition wide_ball : Ball.t :=
  Ball.mk 10 10 15 (255, 0, 0) (0%float, 0%float).

(** A resting ball of radius 15 at x = 1015 + 2^-43: on a screen 1030 wide
    its right edge is half a unit in the last place past the bound. *)
Definition edge_ball : Ball.t :=
  Ball.mk (1015 + 0x1p-43) 500 15 (255, 0, 0) (0%float, 0%float).

(** A ball whose x coordinate is a NaN. *)
Definition nan_ball : Ball.t :=
  Ball.mk nan 300 15 (255, 0, 0) (0%float, 0%float).

(** C2 as the specification states it, for [Ball.update] with its default
    friction: entering with [vx = -2] (and [vy = 0]) and crossing the left
    bound, the ball leaves with [x == radius] and [vx == 1.6]. *)
Definition C2_as_stated : Prop :=
  forall (b : Ball.t) (w h : Z),
    fst (Ball.velocity b) = (-2)%float ->
    snd (Ball.velocity b) = 0%float ->
    Py.flt (Ball.x b + fst (Ball.velocity b) * Ball.default_friction
            - Ball.radius b)%float 0 = true ->
    (Ball.x (Ball.update w h Ball.default_friction b) =? Ball.radius b)%float = true
    /\ (fst (Ball.velocity (Ball.update w h Ball.default_friction b)) =? 1.6)%float
       = true.

(** C8 as the specification states it: after [Ball.update] the radius is
    the same and each coordinate lies in [radius, bound - radius]. *)
Definition C8_as_stated : Prop :=
  forall (b : Ball.t) (w h : Z),
    Ball.radius (Ball.update w h Ball.default_friction b) = Ball.radius b
    /\ (Ball.radius b <=? Ball.x (Ball.update w h Ball.default_friction b))%float
       && (Ball.x (Ball.update w h Ball.default_friction b)
           <=? Py.Z2F w - Ball.radius b)%float = true
    /\ (Ball.radius b <=? Ball.y (Ball.update w h Ball.default_friction b))%float
       && (Ball.y (Ball.update w h Ball.default_friction b)
           <=? Py.Z2F h - Ball.radius b)%float = true.

(** What [Ball.update] keeps on one axis where the ball fits: the new
    coordinate [p'] is at least the radius, and it is at most
    [bound - radius] or it is the moved coordinate [p] itself, which then
    passes the code's test of the high edge, [p + radius > bound] being
    false in binary64. *)
Definition kept_inside (p rad : float) (bound : Z) (p' : float) : Prop :=
  (rad <=? p')%float = true
  /\ ((p' <=? Py.Z2F bound - rad)%float = true
      \/ (p' = p /\ Py.fgt (p' + rad)%float bound = false)).

(** ** Simulation states *)

Section StatePredicates.
Import GameLogic.

(** What the first loop of [_process_suction] does to one ball object. *)
Definition suction_ball (range : Z) (mouse : float * float) (b : Ball.t)
    : Ball.t :=
  if Py.fle (suction_distance mouse b) range
  then Ball.set_velocity (pulled_velocity range mouse b) b
  else b.

(** Position and radius, which decide whether a ball is swallowed. *)
Definition same_place (b b' : Ball.t) : Prop :=
  Ball.x b = Ball.x b' /\ Ball.y b = Ball.y b'
  /\ Ball.radius b = Ball.radius b'.

(** [size(active_balls) + size(inventory)]. *)
Definition total_balls (g : t) : nat :=
  (length (balls g) + length (inventory g))%nat.

(** No ball is listed twice, within or across [balls] and [inventory], and
    every listed ball has been created. *)
Definition owned (g : t) : Prop :=
  NoDup (balls g ++ inventory g)
  /\ forall r, r ∈ balls g ++ inventory g -> (r < next_ref g)%nat.

(** The constants set by [__init__]. *)
Definition configured (g : t) : Prop :=
  delete_zone_size g = 100 /\ delete_zone_x g = screen_width g - 100
  /\ delete_zone_y g = 0 /\ suction_range g = 100.

(** The state in which [update] enters the suction phase, and the one in
    which it enters the delete-zone check. *)
Definition collided (g : t) : t := _handle_collisions (advance_all g).
Definition before_check (g : t) : t :=
  if suction_active (collided g) then _process_suction (collided g)
  else collided g.

(** The balls the suction phase of [update g] transfers. *)
Definition transferred (g : t) (r : ref) : Prop :=
  suction_active g = true
  /\ swallowed (suction_range g) (suction_mouse_pos g) (store (collided g) r)
     = true.

#[global] Instance transferred_dec (g : t) (r : ref) : Decision (transferred g r).
Proof. unfold transferred. apply _. Defined.

(** Membership in the rectangle [(x, y, width, height)], closed on all four
    sides. *)
Definition in_rect (bounds : Z * Z * Z * Z) (px py : float) : bool :=
  let '(bx, byy, bw, bh) := bounds in
  (Py.fge px bx && Py.fle px (bx + bw)) && (Py.fge py byy && Py.fle py (byy + bh)).

(** The part of C5 on ejection, as the specification states it: a
    successful [eject_ball] increases [size(active) + size(inventory)] by
    one. *)
Definition C5_eject_as_stated `{PyLib} : Prop :=
  forall mx my vel g rs,
    reachable g -> inventory g <> [] ->
    total_balls (snd (fst (eject_ball mx my vel g rs))) = S (total_balls g).

End StatePredicates.

(** A resting ball of radius 15 at (150, 100), and the simulation holding it
    as its only active ball with the suction focus at (100, 100): the ball
    is at distance 50 from the focus, to its right. *)
Definition resting_ball : Ball.t :=
  Ball.mk 150 100 15 (255, 0, 0) (0%float, 0%float).
Definition suction_state : GameLogic.t :=
  GameLogic.mk 800 600
    (<[ 0%nat := resting_ball ]> (fun _ => GameLogic.dummy_ball))
    1%nat [0%nat] [] 100 700 0 100 true (100%float, 100%float).

(** The 800 x 600 simulation after [add_ball(150, 100)],
    [start_suction(150, 100)] and one [update]: the ball has been swallowed
    and the inventory holds it. *)
Definition swallowed_state : GameLogic.t :=
  GameLogic.update
    (GameLogic.start_suction 150 100
       (snd (fst (GameLogic.add_ball (H := fixed_lib) (Some 150%float)
                    (Some 100%float) (Some (255, 0, 0))
                    (GameLogic.init 800 600) tt)))).

(** The 800 x 600 simulation after [add_ball(150, 100)],
    [add_ball(790, 10)] and [start_suction(160, 100)]: the next [update]
    swallows the first ball and deletes the second. *)
Definition frame_state : GameLogic.t :=
  GameLogic.start_suction 160 100
    (snd (fst (GameLogic.add_ball (H := fixed_lib) (Some 790%float)
                 (Some 10%float) (Some (0, 0, 255))
       (snd (fst (GameLogic.add_ball (H := fixed_lib) (Some 150%float)
                    (Some 100%float) (Some (255, 0, 0))
                    (GameLogic.init 800 600) tt))) tt))).

(** ** Predicates and inputs of the further properties *)

(** A float that is not below zero: no negative infinity and no negative
    finite value (a NaN and both zeros qualify). *)
Definition sf_not_negative (f : spec_float) : Prop :=
  match f with
  | S754_infinity true | S754_finite true _ _ => False
  | _ => True
  end.
Definition sf_not_positive (f : spec_float) : Prop :=
  match f with
  | S754_infinity false | S754_finite false _ _ => False
  | _ => True
  end.

(** The double loop of [_handle_collisions] without its [checked_pairs] set:
    each ball is tested against every later ball, in list order. *)
Definition collide_plain (ball1 : GameLogic.ref) (s : GameLogic.ref -> Ball.t)
    (ball2 : GameLogic.ref) : GameLogic.ref -> Ball.t :=
  if Ball.is_colliding (s ball1) (s ball2)
  then GameLogic._mix_colors ball1 ball2 s else s.

Fixpoint collide_all (l : list GameLogic.ref) (s : GameLogic.ref -> Ball.t)
    : GameLogic.ref -> Ball.t :=
  match l with
  | [] => s
  | ball1 :: rest => collide_all rest (foldl (collide_plain ball1) s rest)
  end.

(** Every pair recorded so far has its first index below [i], or is a pair
    [(i, b)] with [b] below [j]. *)
Definition pairs_before (i j : nat) (checked : gset (nat * nat)) : Prop :=
  forall a b, (a, b) ∈ checked -> (a < i)%nat \/ (a = i /\ b < j)%nat.

(** [eject_ball] called once per click [(x, y, velocity)], in order, as
    repeated right clicks do. *)
Fixpoint eject_each `{PyLib} (clicks : list (float * float * option (float * float)))
    (g : GameLogic.t) (rs : rng) : GameLogic.t * rng :=
  match clicks with
  | [] => (g, rs)
  | (mx, my, vel) :: clicks =>
      eject_each clicks (snd (fst (GameLogic.eject_ball mx my vel g rs)))
        (snd (GameLogic.eject_ball mx my vel g rs))
  end.

(** Bounded quantification over pairs of ints, the floats [g a] and [h b]
    being named once each, outside the inner loop. *)
Definition forall2zf (n : nat) (w : float) (g h : Z -> float)
    (Q : float -> Z -> float -> Z -> float -> bool) : bool :=
  let hs := List.map (fun b => (b, h b)) (zrange n) in
  forallb (fun a => let fa := g a in
                    forallb (fun bh => Q w a fa (fst bh) (snd bh)) hs)
          (zrange n).

(** The code's channel [int((f1 + f2) % w)] lies between the two input
    channels, or is 0 when both are 255. *)
Definition between_agrees (w : float) (c1 : Z) (f1 : float) (c2 : Z) (f2 : float)
    : bool :=
  let m := Py.int (Py.float_rem (f1 + f2)%float w) in
  if (c1 =? 255) && (c2 =? 255) then m =? 0
  else (Z.min c1 c2 <=? m) && (m <=? Z.max c1 c2).

(** Two hexadecimal digits of a channel, high digit first. *)
Definition two_digits (c : Z) : String.string :=
  String.String (PyFormat.hex_digit (c / 16))
    (String.String (PyFormat.hex_digit (c mod 16)) String.EmptyString).

Definition format_agrees (c : Z) : bool :=
  String.eqb (PyFormat.format_02x c) (two_digits c).

(** The value of a hexadecimal digit, [16] for any other character. *)
Definition hex_value (a : Ascii.ascii) : Z :=
  let n := Z.of_nat (Ascii.nat_of_ascii a) in
  if (48 <=? n) && (n <=? 57) then n - 48
  else if (97 <=? n) && (n <=? 102) then n - 87
  else 16.

Definition digit_round_trip (d : Z) : bool := hex_value (PyFormat.hex_digit d) =? d.

(** The suction state of the game mirrors the mouse state of the window. *)
Definition suction_follows_mouse (w : GameWindow.t) : Prop :=
  GameLogic.suction_active (GameWindow.game w) = GameWindow.mouse_pressed w
  /\ (GameWindow.mouse_pressed w = true ->
      GameLogic.suction_mouse_pos (GameWindow.game w)
      = (Py.Z2F (GameWindow.mouse_x w), Py.Z2F (GameWindow.mouse_y w))).

(** The colors of all balls the game holds have channels in 0..255. *)
Definition colors_ok (g : GameLogic.t) : Prop :=
  forall r, r ∈ GameLogic.balls g ++ GameLogic.inventory g ->
    color_ok (Ball.color (GameLogic.store g r)).

(** A short session: press, two frames, release, right click, space. *)
Definition short_session : list GameWindow.event :=
  [GameWindow.ButtonPress1 100 100; GameWindow.Timer; GameWindow.Timer;
   GameWindow.ButtonRelease1 100 100; GameWindow.Button3 300 300;
   GameWindow.KeyPressSpace; GameWindow.Timer].

(** [random.randint(lo, hi)] returns an int of [lo .. hi], as the library
    documents it. *)
Definition randint_in_bounds `{PyLib} : Prop :=
  forall lo hi rs, lo <= hi -> lo <= fst (random_randint lo hi rs) <= hi.

(** The 800 x 600 simulation after [add_ball(150, 100)] and
    [start_suction(150, 100)]: the focus is the center of the ball. *)
Definition focus_state : GameLogic.t :=
  GameLogic.start_suction 150 100
    (snd (fst (GameLogic.add_ball (H := fixed_lib) (Some 150%float)
                 (Some 100%float) (Some (255, 0, 0))
                 (GameLogic.init 800 600) tt))).

(** * Color mixing *)

Lemma zrange_complete (n : nat) (z : Z) :
  0 <= z < Z.of_nat n -> List.In z (zrange n).
Proof.
  intros Hz. unfold zrange. apply List.in_map_iff.
  exists (Z.to_nat z). split; [lia|]. apply List.in_seq. lia.
Qed.

Lemma forall1b_spec (n : nat) (P : Z -> bool) (a : Z) :
  forall1b n P = true -> 0 <= a < Z.of_nat n -> P a = true.
Proof.
  unfold forall1b. intros T Ha.
  exact (proj1 (List.forallb_forall _ _) T a (zrange_complete n a Ha)).
Qed.

Lemma forall2f_spec (n : nat) (w : float) (g h : Z -> float)
    (Q : float -> float -> float -> bool) (a b : Z) :
  forall2f n w g h Q = true ->
  0 <= a < Z.of_nat n -> 0 <= b < Z.of_nat n -> Q w (g a) (h b) = true.
Proof.
  unfold forall2f. cbv zeta. intros T Ha Hb.
  pose proof (proj1 (List.forallb_forall _ _) T a (zrange_complete n a Ha)) as T1.
  cbv beta in T1.
  apply (proj1 (List.forallb_forall _ _) T1 (h b)).
  apply List.in_map, zrange_complete, Hb.
Qed.

(** On the documented channel range the code's channel is the specified one;
    decided by running both on all 256 * 256 pairs. *)
Lemma channel_table :
  forall2f 256 (Py.Z2F 255) weigh6 weigh4 rem_agrees = true.
Proof. vm_compute. reflexivity. Qed.

Lemma mix_channel_spec (c1 c2 : Z) :
  channel_ok c1 -> channel_ok c2 ->
  GameLogic.mix_channel c1 c2 = ColorSpec.channel c1 c2.
Proof.
  unfold channel_ok. intros H1 H2. apply Z.eqb_eq.
  change (rem_agrees (Py.Z2F 255) (weigh6 c1) (weigh4 c2) = true).
  apply (forall2f_spec 256 (Py.Z2F 255) weigh6 weigh4 rem_agrees c1 c2
           channel_table); lia.
Qed.

Lemma mix_channel_range (c1 c2 : Z) :
  channel_ok c1 -> channel_ok c2 -> 0 <= GameLogic.mix_channel c1 c2 <= 254.
Proof.
  intros H1 H2. rewrite mix_channel_spec by assumption.
  unfold ColorSpec.channel.
  generalize (ColorSpec.floor (Py.Z2F c1 * 0.6 + Py.Z2F c2 * 0.4)%float).
  intros z. pose proof (Z.mod_pos_bound z 255 ltac:(lia)). lia.
Qed.

Lemma brightness_table : forall1b 766 brightness_agrees = true.
Proof. vm_compute. reflexivity. Qed.

Lemma brightness_spec (r g b : Z) :
  channel_ok r -> channel_ok g -> channel_ok b ->
  Py.fgt (GameLogic.brightness (r, g, b)) 200 = ColorSpec.mean_exceeds_200 r g b.
Proof.
  unfold channel_ok. intros Hr Hg Hb.
  unfold GameLogic.brightness, ColorSpec.mean_exceeds_200.
  apply Bool.eqb_prop.
  apply (forall1b_spec 766 brightness_agrees (r + g + b) brightness_table). lia.
Qed.

Lemma darken_spec (c : Z * Z * Z) :
  color_ok c -> GameLogic.darken c = ColorSpec.darken c.
Proof.
  destruct c as [[r g] b]. intros (Hr & Hg & Hb).
  unfold GameLogic.darken, ColorSpec.darken.
  rewrite brightness_spec by assumption. reflexivity.
Qed.

Lemma premix_ok (c1 c2 : Z * Z * Z) :
  color_ok c1 -> color_ok c2 -> color_ok (GameLogic.premix c1 c2).
Proof.
  destruct c1 as [[r1 g1] b1], c2 as [[r2 g2] b2].
  intros (?&?&?) (?&?&?). unfold GameLogic.premix, color_ok, channel_ok.
  pose proof (mix_channel_range r1 r2). pose proof (mix_channel_range g1 g2).
  pose proof (mix_channel_range b1 b2). intuition lia.
Qed.

Lemma mixed_color_spec (c1 c2 : Z * Z * Z) :
  color_ok c1 -> color_ok c2 ->
  GameLogic.mixed_color c1 c2 = ColorSpec.mix c1 c2.
Proof.
  intros H1 H2. unfold GameLogic.mixed_color.
  rewrite darken_spec by (apply premix_ok; assumption).
  destruct c1 as [[r1 g1] b1], c2 as [[r2 g2] b2].
  destruct H1 as (?&?&?), H2 as (?&?&?).
  unfold GameLogic.premix, ColorSpec.mix.
  rewrite !mix_channel_spec by assumption. reflexivity.
Qed.

(** What [_mix_colors] leaves in the store: both balls carry the mixed
    color of the two colors read at entry. *)
Lemma mix_colors_color (s : GameLogic.ref -> Ball.t) (r1 r2 : GameLogic.ref) :
  Ball.color (GameLogic._mix_colors r1 r2 s r1)
    = GameLogic.mixed_color (Ball.color (s r1)) (Ball.color (s r2))
  /\ Ball.color (GameLogic._mix_colors r1 r2 s r2)
    = GameLogic.mixed_color (Ball.color (s r1)) (Ball.color (s r2)).
Proof.
  unfold GameLogic._mix_colors. split.
  - destruct (decide (r2 = r1)) as [->|Hne].
    + rewrite fn_lookup_alter. reflexivity.
    + rewrite fn_lookup_alter_ne by assumption.
      rewrite fn_lookup_alter. reflexivity.
  - rewrite fn_lookup_alter. reflexivity.
Qed.

(** Darkening keeps channels of the pre-darken range in that range. *)
Lemma darken_range (c : Z * Z * Z) :
  (let '(r, g, b) := c in 0 <= r <= 254 /\ 0 <= g <= 254 /\ 0 <= b <= 254) ->
  let '(r, g, b) := GameLogic.darken c in
  0 <= r <= 254 /\ 0 <= g <= 254 /\ 0 <= b <= 254.
Proof.
  destruct c as [[r g] b]. intros (Hr & Hg & Hb). unfold GameLogic.darken.
  destruct (Py.fgt _ 200); [|auto].
  destruct (_ && _); [lia|]. destruct (_ && _); lia.
Qed.

Lemma mixed_color_range (c1 c2 : Z * Z * Z) :
  color_ok c1 -> color_ok c2 ->
  let '(r, g, b) := GameLogic.mixed_color c1 c2 in
  0 <= r <= 254 /\ 0 <= g <= 254 /\ 0 <= b <= 254.
Proof.
  intros H1 H2. unfold GameLogic.mixed_color. apply darken_range.
  destruct c1 as [[r1 g1] b1], c2 as [[r2 g2] b2].
  destruct H1 as (?&?&?), H2 as (?&?&?). unfold GameLogic.premix.
  auto using mix_channel_range.
Qed.

(** ** C3 *)

(** C3, as stated, fails: mixing (250,250,250) with (250,250,250) does not
    leave (200,200,200) on the balls. *)
Lemma C3_counterexample :
  Ball.color (GameLogic._mix_colors 0%nat 1%nat
                (two_colors (250, 250, 250) (250, 250, 250)) 0%nat)
    <> (200, 200, 200).
Proof. vm_compute. discriminate. Qed.

(** C3, amended: mixing (250,250,250) with (250,250,250) gives the
    pre-darken color (250,250,250), whose brightness 250 exceeds 200; neither
    r nor g is strictly dominant, so the last branch darkens r and g to 200
    and leaves b at 250: both balls end with (200,200,250). *)
Theorem C3_near_white_mix (s : GameLogic.ref -> Ball.t) (r1 r2 : GameLogic.ref) :
  Ball.color (s r1) = (250, 250, 250) ->
  Ball.color (s r2) = (250, 250, 250) ->
  GameLogic.premix (Ball.color (s r1)) (Ball.color (s r2)) = (250, 250, 250)
  /\ GameLogic.brightness (250, 250, 250) = 250%float
  /\ Py.fgt (GameLogic.brightness (250, 250, 250)) 200 = true
  /\ GameLogic.darken (250, 250, 250)
     = (Z.max 50 (250 - 50), Z.max 50 (250 - 50), 250)
  /\ Ball.color (GameLogic._mix_colors r1 r2 s r1) = (200, 200, 250)
  /\ Ball.color (GameLogic._mix_colors r1 r2 s r2) = (200, 200, 250).
Proof.
  intros H1 H2. destruct (mix_colors_color s r1 r2) as [E1 E2].
  rewrite E1, E2, H1, H2. repeat split; vm_compute; reflexivity.
Qed.

(** C3 (amended) at the store [two_colors]. *)
Lemma C3_near_white_mix_witness :
  GameLogic.premix
    (Ball.color (two_colors (250, 250, 250) (250, 250, 250) 0%nat))
    (Ball.color (two_colors (250, 250, 250) (250, 250, 250) 1%nat))
    = (250, 250, 250)
  /\ GameLogic.brightness (250, 250, 250) = 250%float
  /\ Py.fgt (GameLogic.brightness (250, 250, 250)) 200 = true
  /\ GameLogic.darken (250, 250, 250)
     = (Z.max 50 (250 - 50), Z.max 50 (250 - 50), 250)
  /\ Ball.color (GameLogic._mix_colors 0%nat 1%nat
                   (two_colors (250, 250, 250) (250, 250, 250)) 0%nat)
     = (200, 200, 250)
  /\ Ball.color (GameLogic._mix_colors 0%nat 1%nat
                   (two_colors (250, 250, 250) (250, 250, 250)) 1%nat)
     = (200, 200, 250).
Proof.
  apply (C3_near_white_mix (two_colors (250, 250, 250) (250, 250, 250)) 0%nat 1%nat);
    reflexivity.
Defined.

(** ** C4 *)

(** C4: on colors of the documented range, [_mix_colors] writes to both
    balls the color the specification describes: each channel
    [floor(c1*0.6 + c2*0.4) mod 255]; when the mean of the three exceeds 200
    the strictly dominant channel (r first, then g, else the fall-through
    that darkens r and g) is kept and the other two become
    [max(50, value - 50)]. *)
Theorem C4_mix_colors_refines_spec
    (s : GameLogic.ref -> Ball.t) (r1 r2 : GameLogic.ref) :
  color_ok (Ball.color (s r1)) ->
  color_ok (Ball.color (s r2)) ->
  Ball.color (GameLogic._mix_colors r1 r2 s r1)
    = ColorSpec.mix (Ball.color (s r1)) (Ball.color (s r2))
  /\ Ball.color (GameLogic._mix_colors r1 r2 s r2)
    = ColorSpec.mix (Ball.color (s r1)) (Ball.color (s r2)).
Proof.
  intros H1 H2. destruct (mix_colors_color s r1 r2) as [E1 E2].
  rewrite E1, E2, mixed_color_spec by assumption. split; reflexivity.
Qed.

Lemma color_ok_intro (r g b : Z) :
  (0 <=? r) && (r <=? 255) && (0 <=? g) && (g <=? 255)
    && (0 <=? b) && (b <=? 255) = true ->
  color_ok (r, g, b).
Proof. unfold color_ok, channel_ok. lia. Qed.

(** C4 at the colors (200,200,200) and (100,100,100). *)
Lemma C4_mix_colors_refines_spec_witness :
  Ball.color (GameLogic._mix_colors 0%nat 1%nat
                (two_colors (200, 200, 200) (100, 100, 100)) 0%nat)
    = ColorSpec.mix
        (Ball.color (two_colors (200, 200, 200) (100, 100, 100) 0%nat))
        (Ball.color (two_colors (200, 200, 200) (100, 100, 100) 1%nat))
  /\ Ball.color (GameLogic._mix_colors 0%nat 1%nat
                   (two_colors (200, 200, 200) (100, 100, 100)) 1%nat)
    = ColorSpec.mix
        (Ball.color (two_colors (200, 200, 200) (100, 100, 100) 0%nat))
        (Ball.color (two_colors (200, 200, 200) (100, 100, 100) 1%nat)).
Proof.
  apply (C4_mix_colors_refines_spec
           (two_colors (200, 200, 200) (100, 100, 100)) 0%nat 1%nat);
    apply color_ok_intro; reflexivity.
Defined.

(** The channel formula is one of binary64 arithmetic: at the channels 6
    and 1 the float sum [6*0.6 + 1*0.4] is 3.9999999999999996, so the
    channel is 3, where exact arithmetic gives [floor(4.0) = 4]. *)
Lemma mix_channel_is_binary64 :
  GameLogic.mix_channel 6 1 = 3 /\ (6 * 6 + 4 * 1) / 10 mod 255 = 4.
Proof. split; vm_compute; reflexivity. Qed.

(** ** C9 *)

(** C9: after [_mix_colors] on colors of the documented range, every
    channel of both balls lies in 0..254, so no channel is 255. *)
Theorem C9_mixed_channels_below_255
    (s : GameLogic.ref -> Ball.t) (r1 r2 : GameLogic.ref) :
  color_ok (Ball.color (s r1)) ->
  color_ok (Ball.color (s r2)) ->
  forall ball, ball = r1 \/ ball = r2 ->
  let '(r, g, b) := Ball.color (GameLogic._mix_colors r1 r2 s ball) in
  (0 <= r <= 254 /\ 0 <= g <= 254 /\ 0 <= b <= 254)
  /\ r <> 255 /\ g <> 255 /\ b <> 255.
Proof.
  intros H1 H2 ball Hb. destruct (mix_colors_color s r1 r2) as [E1 E2].
  pose proof (mixed_color_range _ _ H1 H2) as R.
  assert (E : Ball.color (GameLogic._mix_colors r1 r2 s ball)
              = GameLogic.mixed_color (Ball.color (s r1)) (Ball.color (s r2)))
    by (destruct Hb; subst; assumption).
  rewrite E. destruct (GameLogic.mixed_color _ _) as [[r g] b]. lia.
Qed.

(** C9 at the colors (255,255,255) and (255,254,253). *)
Lemma C9_mixed_channels_below_255_witness :
  let '(r, g, b) :=
    Ball.color (GameLogic._mix_colors 0%nat 1%nat
                  (two_colors (255, 255, 255) (255, 254, 253)) 1%nat) in
  (0 <= r <= 254 /\ 0 <= g <= 254 /\ 0 <= b <= 254)
  /\ r <> 255 /\ g <> 255 /\ b <> 255.
Proof.
  apply (C9_mixed_channels_below_255
           (two_colors (255, 255, 255) (255, 254, 253)) 0%nat 1%nat);
    [apply color_ok_intro; reflexivity | apply color_ok_intro; reflexivity
    | right; reflexivity].
Defined.

(** * Ball kinematics *)

(** The three outcomes of [Ball.bounce] on one axis. *)
Lemma bounce_cases (p rad v : float) (bound : Z) :
  (Py.flt (p - rad)%float 0 = true
   /\ Ball.bounce p rad v bound = (rad, (abs v * 0.8)%float))
  \/ (Py.flt (p - rad)%float 0 = false
      /\ Py.fgt (p + rad)%float bound = true
      /\ Ball.bounce p rad v bound
         = ((Py.Z2F bound - rad)%float, (- abs v * 0.8)%float))
  \/ (Py.flt (p - rad)%float 0 = false
      /\ Py.fgt (p + rad)%float bound = false
      /\ Ball.bounce p rad v bound = (p, v)).
Proof.
  unfold Ball.bounce.
  destruct (Py.flt (p - rad) 0); [left; auto|].
  destruct (Py.fgt (p + rad) bound); [right; left; auto | right; right; auto].
Qed.

(** [Ball.update] in terms of the two bounces. *)
Lemma update_unfold (w h : Z) (f : float) (b : Ball.t) :
  Ball.update w h f b =
  let vx := (fst (Ball.velocity b) * f)%float in
  let vy := (snd (Ball.velocity b) * f)%float in
  let bx := Ball.bounce (Ball.x b + vx)%float (Ball.radius b) vx w in
  let byy := Ball.bounce (Ball.y b + vy)%float (Ball.radius b) vy h in
  Ball.mk (fst bx) (fst byy) (Ball.radius b) (Ball.color b) (snd bx, snd byy).
Proof.
  unfold Ball.update. destruct (Ball.velocity b) as [vx vy]. cbn [fst snd].
  destruct (Ball.bounce _ _ _ w), (Ball.bounce _ _ _ h). reflexivity.
Qed.

(** A float that compares [<=] with another one is not a NaN, hence
    compares [<=] with itself; likewise the other one. *)
Lemma SFcompare_refl (f : spec_float) :
  f <> S754_nan -> SFcompare f f = Some Eq.
Proof.
  destruct f as [s|s| |s m e]; cbn; intros Hf; try congruence.
  - destruct s; reflexivity.
  - destruct s; rewrite Z.compare_refl, Pos.compare_cont_refl; reflexivity.
Qed.

Lemma leb_refl_of_leb (a b : float) :
  (a <=? b)%float = true -> (a <=? a)%float = true /\ (b <=? b)%float = true.
Proof.
  rewrite !leb_spec. unfold SFleb. intros H.
  assert (Prim2SF a <> S754_nan /\ Prim2SF b <> S754_nan) as [Ha Hb].
  { destruct (Prim2SF a), (Prim2SF b); cbn in H; split; congruence. }
  rewrite !SFcompare_refl by assumption. split; reflexivity.
Qed.

(** ** C2 *)

(** C2 fails as stated: the ball at x = 16 with radius 15 and velocity
    (-2, 0) on the 800 x 600 screen leaves with [vx = 1.568], because the
    friction 0.98 is applied before the bounce. *)
Lemma C2_counterexample : ~ C2_as_stated.
Proof.
  intros H.
  destruct (H left_ball 800 600
              eq_refl eq_refl eq_refl) as [_ Hv].
  vm_compute in Hv. discriminate.
Qed.

(** C2, amended: when the moved coordinate [x + vx * friction] has its left
    edge below 0, [Ball.update] leaves [x = radius] and
    [vx = |vx * friction| * 0.8].  Entering with [vx = -2] this is 1.568
    under the default friction 0.98, and 1.6 under friction 1. *)
Theorem C2_left_bounce (b : Ball.t) (w h : Z) (f : float) :
  Py.flt (Ball.x b + fst (Ball.velocity b) * f - Ball.radius b)%float 0 = true ->
  Ball.x (Ball.update w h f b) = Ball.radius b
  /\ fst (Ball.velocity (Ball.update w h f b))
     = (abs (fst (Ball.velocity b) * f) * 0.8)%float
  /\ (fst (Ball.velocity b) = (-2)%float -> f = Ball.default_friction ->
      fst (Ball.velocity (Ball.update w h f b)) = 1.568%float)
  /\ (fst (Ball.velocity b) = (-2)%float -> f = 1%float ->
      fst (Ball.velocity (Ball.update w h f b)) = 1.6%float).
Proof.
  intros Hcross.
  assert (E : Ball.bounce (Ball.x b + fst (Ball.velocity b) * f)%float
                (Ball.radius b) (fst (Ball.velocity b) * f)%float w
              = (Ball.radius b, (abs (fst (Ball.velocity b) * f) * 0.8)%float)).
  { unfold Ball.bounce. rewrite Hcross. reflexivity. }
  rewrite update_unfold. cbv zeta. cbn [Ball.x Ball.velocity fst snd].
  rewrite E. cbn [fst snd].
  split; [reflexivity|]. split; [reflexivity|].
  split; intros -> ->; vm_compute; reflexivity.
Qed.

(** C2 (amended) at [left_ball] on the 800 x 600 screen. *)
Lemma C2_left_bounce_witness :
  Ball.x (Ball.update 800 600 Ball.default_friction
            left_ball)
  = Ball.radius left_ball
  /\ fst (Ball.velocity (Ball.update 800 600 Ball.default_friction
            left_ball))
     = (abs (fst (Ball.velocity
                    left_ball)
             * Ball.default_friction) * 0.8)%float
  /\ (fst (Ball.velocity left_ball)
      = (-2)%float ->
      Ball.default_friction = Ball.default_friction ->
      fst (Ball.velocity (Ball.update 800 600 Ball.default_friction
             left_ball))
      = 1.568%float)
  /\ (fst (Ball.velocity left_ball)
      = (-2)%float ->
      Ball.default_friction = 1%float ->
      fst (Ball.velocity (Ball.update 800 600 Ball.default_friction
             left_ball))
      = 1.6%float).
Proof.
  apply (C2_left_bounce left_ball
           800 600 Ball.default_friction).
  vm_compute. reflexivity.
Defined.

(** ** C8 *)

(** C8 fails as stated: on a 20 x 20 screen a resting ball of radius 15 at
    (10, 10) is moved to (15, 15), past [bound - radius = 5]. *)
Lemma C8_counterexample : ~ C8_as_stated.
Proof.
  intros H.
  destruct (H wide_ball 20 20)
    as (_ & Hx & _).
  vm_compute in Hx. discriminate.
Qed.

(** ** Order and the sign of a computed difference *)

Lemma digits2_pos_bounds (m : positive) :
  2 ^ (Z.pos (digits2_pos m) - 1) <= Z.pos m < 2 ^ Z.pos (digits2_pos m).
Proof.
  induction m as [m IH|m IH|]; cbn [digits2_pos].
  - rewrite Pos2Z.inj_succ. change (Z.pos m~1) with (2 * Z.pos m + 1).
    replace (Z.succ (Z.pos (digits2_pos m)) - 1)
      with (Z.succ (Z.pos (digits2_pos m) - 1)) by lia.
    rewrite !Z.pow_succ_r by lia. lia.
  - rewrite Pos2Z.inj_succ. change (Z.pos m~0) with (2 * Z.pos m).
    replace (Z.succ (Z.pos (digits2_pos m)) - 1)
      with (Z.succ (Z.pos (digits2_pos m) - 1)) by lia.
    rewrite !Z.pow_succ_r by lia. lia.
  - cbn. lia.
Qed.

Lemma shr_1_m (mrs : shr_record) :
  0 <= shr_m mrs -> shr_m (shr_1 mrs) = shr_m mrs / 2.
Proof.
  destruct mrs as [m r s]. cbn [shr_m]. intros Hm.
  rewrite <- Z.div2_div.
  destruct m as [|[p|p|]|p]; try reflexivity. lia.
Qed.

Lemma iter_shr_1_m (p : positive) :
  forall mrs, 0 <= shr_m mrs ->
    shr_m (SpecFloat.iter_pos shr_1 p mrs) = shr_m mrs / 2 ^ Z.pos p.
Proof.
  induction p as [p IH|p IH|]; intros mrs Hm; cbn [SpecFloat.iter_pos].
  - assert (H1 : 0 <= shr_m (shr_1 mrs)).
    { rewrite shr_1_m by exact Hm. apply Z.div_pos; lia. }
    assert (H2 : 0 <= shr_m (SpecFloat.iter_pos shr_1 p (shr_1 mrs))).
    { rewrite IH by exact H1. apply Z.div_pos; [exact H1|]. apply Z.pow_pos_nonneg; lia. }
    rewrite IH by exact H2. rewrite IH by exact H1. rewrite shr_1_m by exact Hm.
    rewrite !Z.div_div by (try apply Z.pow_pos_nonneg; lia).
    f_equal. change (Z.pos p~1) with (2 * Z.pos p + 1).
    replace (2 * Z.pos p + 1) with (1 + Z.pos p + Z.pos p) by lia.
    rewrite !Z.pow_add_r by lia. lia.
  - assert (H2 : 0 <= shr_m (SpecFloat.iter_pos shr_1 p mrs)).
    { rewrite IH by exact Hm. apply Z.div_pos; [exact Hm|]. apply Z.pow_pos_nonneg; lia. }
    rewrite IH by exact H2. rewrite IH by exact Hm.
    rewrite !Z.div_div by (try apply Z.pow_pos_nonneg; lia).
    f_equal. change (Z.pos p~0) with (2 * Z.pos p).
    replace (2 * Z.pos p) with (Z.pos p + Z.pos p) by lia.
    rewrite !Z.pow_add_r by lia. lia.
  - apply shr_1_m, Hm.
Qed.

Lemma shr_record_of_loc_m (m : Z) (l : location) :
  shr_m (shr_record_of_loc m l) = m.
Proof. destruct l as [|[]]; reflexivity. Qed.

(** Rounding a positive mantissa whose exponent is not below [emin] does
    not shift it away. *)
Lemma shr_fexp_pos (m e : Z) (l : location) :
  0 < m -> emin <= e ->
  0 < shr_m (fst (shr_fexp prec emax m e l))
  /\ emin <= snd (shr_fexp prec emax m e l).
Proof.
  intros Hm He. unfold shr_fexp, shr.
  destruct m as [|q|q]; try lia. cbn [Zdigits2].
  pose proof (digits2_pos_bounds q) as [Hlo _].
  destruct (fexp prec emax (Z.pos (digits2_pos q) + e) - e) as [|n|n] eqn:En;
    cbn [fst snd]; rewrite ?shr_record_of_loc_m; try (split; lia).
  unfold fexp, SpecFloat.emin, prec, emax in *.
  assert (Hn : Z.pos n = Z.pos (digits2_pos q) - 53) by lia.
  split; [|lia].
  rewrite iter_shr_1_m by (rewrite shr_record_of_loc_m; lia).
  rewrite shr_record_of_loc_m.
  apply Z.div_str_pos. split; [apply Z.pow_pos_nonneg; lia|].
  etransitivity; [|exact Hlo]. apply Z.pow_le_mono_r; lia.
Qed.

Lemma round_nearest_even_ge (m : Z) (l : location) :
  m <= round_nearest_even m l.
Proof. destruct l as [|[]]; cbn; try lia. destruct (Z.even m); lia. Qed.

Lemma binary_round_aux_pos (s : bool) (m e : Z) (l : location) :
  0 < m -> emin <= e ->
  binary_round_aux prec emax s m e l = S754_infinity s
  \/ exists m' e', binary_round_aux prec emax s m e l = S754_finite s m' e'.
Proof.
  intros Hm He. unfold binary_round_aux.
  destruct (shr_fexp_pos m e l Hm He) as [H1 H2].
  destruct (shr_fexp prec emax m e l) as [mrs' e']. cbn [fst snd] in H1, H2.
  pose proof (round_nearest_even_ge (shr_m mrs') (loc_of_shr_record mrs')) as Hr.
  destruct (shr_fexp_pos (round_nearest_even (shr_m mrs') (loc_of_shr_record mrs'))
              e' loc_Exact ltac:(lia) H2) as [H3 _].
  destruct (shr_fexp prec emax _ e' loc_Exact) as [mrs'' e'']. cbn [fst] in H3.
  destruct (shr_m mrs'') as [|q|q]; try lia.
  destruct (e'' <=? emax - prec); eauto.
Qed.

Lemma binary_round_pos (s : bool) (q : positive) (e : Z) :
  emin <= e ->
  binary_round prec emax s q e = S754_infinity s
  \/ exists m' e', binary_round prec emax s q e = S754_finite s m' e'.
Proof.
  intros He. unfold binary_round, shl_align.
  destruct (fexp prec emax (Z.pos (digits2_pos q) + e) - e) eqn:En;
    apply binary_round_aux_pos; try lia.
  unfold fexp. lia.
Qed.

Lemma shl_align_value (mx : positive) (ex ez : Z) :
  ez <= ex -> Z.pos (fst (shl_align mx ex ez)) = Z.pos mx * 2 ^ (ex - ez).
Proof.
  intros Hle. unfold shl_align.
  destruct (ez - ex) as [|d|d] eqn:Ed; cbn [fst]; try lia.
  - replace (ex - ez) with 0 by lia. lia.
  - replace (ex - ez) with (Z.pos d) by lia.
    change (Pos.iter xO mx d) with (shift_pos d mx).
    rewrite shift_pos_correct. change (2 ^ Z.pos d) with (Z.pow_pos 2 d). lia.
Qed.

Lemma canonical_emin (m : positive) (e : Z) :
  canonical_mantissa prec emax m e = true -> emin <= e.
Proof. unfold canonical_mantissa, fexp. rewrite Z.eqb_eq. lia. Qed.

(** Of two canonical mantissas, the one with the smaller exponent is the
    smaller number. *)
Lemma canonical_lt (m1 : positive) (e1 : Z) (m2 : positive) (e2 : Z) :
  canonical_mantissa prec emax m1 e1 = true ->
  canonical_mantissa prec emax m2 e2 = true ->
  e1 < e2 -> Z.pos m1 < Z.pos m2 * 2 ^ (e2 - e1).
Proof.
  unfold canonical_mantissa, fexp, SpecFloat.emin, prec, emax. rewrite !Z.eqb_eq.
  intros H1 H2 Hlt.
  pose proof (digits2_pos_bounds m1) as [_ Hhi].
  pose proof (digits2_pos_bounds m2) as [Hlo _].
  assert (Hd2 : Z.pos (digits2_pos m2) = 53) by lia.
  rewrite Hd2 in Hlo.
  assert (Hp1 : 2 ^ Z.pos (digits2_pos m1) <= 2 ^ 53)
    by (apply Z.pow_le_mono_r; lia).
  assert (Hp2 : 2 ^ 1 <= 2 ^ (e2 - e1)) by (apply Z.pow_le_mono_r; lia).
  change (2 ^ (53 - 1)) with 4503599627370496 in Hlo.
  change (2 ^ 53) with 9007199254740992 in Hp1.
  change (2 ^ 1) with 2 in Hp2. nia.
Qed.

(** When [r] compares greater than [p], the difference [p - r] is computed
    as a negative number: never a zero, never a NaN. *)
Lemma SFsub_negative (P R : spec_float) :
  valid_binary P = true -> valid_binary R = true ->
  SFcompare R P = Some Gt ->
  SFsub prec emax P R = S754_infinity true
  \/ exists m e, SFsub prec emax P R = S754_finite true m e.
Proof.
  destruct P as [sp|sp| |sp mp ep], R as [sr|sr| |sr mr er];
    cbn [SFcompare SFsub valid_binary]; intros VP VR H; try discriminate;
    try (destruct sp, sr; try discriminate; cbn; eauto; fail);
    try (destruct sr; try discriminate; cbn; eauto; fail);
    try (destruct sp; try discriminate; cbn; eauto; fail).
  unfold bounded in VP, VR.
  apply andb_true_iff in VP as [CP _]. apply andb_true_iff in VR as [CR _].
  pose proof (canonical_emin mp ep CP) as HeP.
  pose proof (canonical_emin mr er CR) as HeR.
  cbv zeta.
  pose proof (shl_align_value mp ep (Z.min ep er) ltac:(lia)) as EP.
  pose proof (shl_align_value mr er (Z.min ep er) ltac:(lia)) as ER.
  set (A := fst (shl_align mp ep (Z.min ep er))) in *.
  set (B := fst (shl_align mr er (Z.min ep er))) in *.
  assert (Hneg : cond_Zopp sp (Z.pos A) - cond_Zopp sr (Z.pos B) < 0).
  { destruct sr, sp; cbn [cond_Zopp]; try discriminate; try lia.
    - (* both negative: |r| < |p| *)
      destruct (er ?= ep) eqn:Ce.
      + apply Z.compare_eq in Ce. subst er.
        rewrite Z.min_id, Z.sub_diag, Z.pow_0_r in EP, ER.
        destruct (Pos.compare_cont Eq mr mp) eqn:Cm; try discriminate.
        change (Pos.compare_cont Eq mr mp) with (Pos.compare mr mp) in Cm.
        rewrite Pos.compare_lt_iff in Cm. lia.
      + rewrite Z.compare_lt_iff in Ce.
        pose proof (canonical_lt mr er mp ep CR CP Ce).
        replace (Z.min ep er) with er in EP, ER by lia.
        rewrite Z.sub_diag, Z.pow_0_r in ER. lia.
      + discriminate.
    - (* both positive: p < r *)
      destruct (er ?= ep) eqn:Ce.
      + apply Z.compare_eq in Ce. subst er.
        rewrite Z.min_id, Z.sub_diag, Z.pow_0_r in EP, ER.
        destruct (Pos.compare_cont Eq mr mp) eqn:Cm; try discriminate.
        change (Pos.compare_cont Eq mr mp) with (Pos.compare mr mp) in Cm.
        rewrite Pos.compare_gt_iff in Cm. lia.
      + discriminate.
      + rewrite Z.compare_gt_iff in Ce.
        pose proof (canonical_lt mp ep mr er CP CR Ce).
        replace (Z.min ep er) with ep in EP, ER by lia.
        rewrite Z.sub_diag, Z.pow_0_r in EP. lia. }
  destruct (cond_Zopp sp (Z.pos A) - cond_Zopp sr (Z.pos B)) as [|q|q];
    try lia.
  cbn [binary_normalize]. apply binary_round_pos. lia.
Qed.

Lemma flt_negative (f : float) :
  Prim2SF f = S754_infinity true
  \/ (exists m e, Prim2SF f = S754_finite true m e) ->
  Py.flt f 0 = true.
Proof.
  unfold Py.flt, Py.cmp_float_int. intros [-> | (m & e & ->)]; [reflexivity|].
  destruct (0 <=? e) eqn:He.
  - apply Z.leb_le in He.
    assert (Hlt : Z.neg m * 2 ^ e < 0).
    { pose proof (Z.pow_pos_nonneg 2 e ltac:(lia) He). nia. }
    apply Z.compare_lt_iff in Hlt. rewrite Hlt. reflexivity.
  - reflexivity.
Qed.

Lemma is_nan_false (f : float) :
  is_nan f = false -> Prim2SF f <> S754_nan.
Proof.
  unfold is_nan. rewrite FloatAxioms.eqb_spec. intros H E. rewrite E in H.
  discriminate.
Qed.

Lemma leb_not_nan (a b : float) :
  (a <=? b)%float = true -> is_nan a = false /\ is_nan b = false.
Proof.
  rewrite leb_spec. unfold is_nan. rewrite !FloatAxioms.eqb_spec.
  unfold SFleb, SFeqb. intros H.
  assert (Prim2SF a <> S754_nan /\ Prim2SF b <> S754_nan) as [Ha Hb].
  { destruct (Prim2SF a), (Prim2SF b); cbn in H; split; congruence. }
  rewrite !SFcompare_refl by assumption. split; reflexivity.
Qed.

(** The low-edge test of [Ball.update] is exact: if [p - r < 0] is false
    for numbers [p] and [r], then [r <= p]. *)
Lemma low_edge_test_exact (p r : float) :
  is_nan p = false -> is_nan r = false ->
  Py.flt (p - r)%float 0 = false -> (r <=? p)%float = true.
Proof.
  intros Hp Hr Htest. rewrite leb_spec. unfold SFleb.
  destruct (SFcompare (Prim2SF r) (Prim2SF p)) as [[| |]|] eqn:C; try reflexivity.
  - exfalso.
    assert (Hneg : Py.flt (p - r)%float 0 = true).
    { apply flt_negative. rewrite sub_spec.
      apply SFsub_negative; [apply Prim2SF_valid..|exact C]. }
    congruence.
  - exfalso. apply is_nan_false in Hp, Hr.
    destruct (Prim2SF r), (Prim2SF p); cbn in C; congruence.
Qed.

(** ** C8, amended *)

Lemma bounce_kept_inside (p rad v : float) (bound : Z) :
  (rad <=? Py.Z2F bound - rad)%float = true ->
  is_nan p = false ->
  kept_inside p rad bound (fst (Ball.bounce p rad v bound)).
Proof.
  intros Hfit Hp. unfold kept_inside.
  destruct (leb_refl_of_leb _ _ Hfit) as [Hrr Hbb].
  destruct (bounce_cases p rad v bound)
    as [(H1 & ->)|[(H1 & H2 & ->)|(H1 & H2 & ->)]]; cbn [fst].
  - split; [exact Hrr|]. left. exact Hfit.
  - split; [exact Hfit|]. left. exact Hbb.
  - split.
    + apply low_edge_test_exact; [exact Hp| |exact H1].
      apply (leb_not_nan _ _ Hfit).
    + right. split; [reflexivity|exact H2].
Qed.

(** C8, amended: [Ball.update] leaves the radius as it was.  On an axis
    where the ball fits, [radius <= bound - radius], and the moved
    coordinate is not a NaN, the new coordinate is at least [radius]; it is
    at most [bound - radius] when it was clamped, and an unclamped
    coordinate passes the code's own test of the high edge,
    [p + radius > bound] being false in binary64. *)
Theorem C8_update_keeps_ball_inside (b : Ball.t) (w h : Z) (f : float) :
  Ball.radius (Ball.update w h f b) = Ball.radius b
  /\ ((Ball.radius b <=? Py.Z2F w - Ball.radius b)%float = true ->
      is_nan (Ball.x b + fst (Ball.velocity b) * f)%float = false ->
      kept_inside (Ball.x b + fst (Ball.velocity b) * f)%float (Ball.radius b) w
        (Ball.x (Ball.update w h f b)))
  /\ ((Ball.radius b <=? Py.Z2F h - Ball.radius b)%float = true ->
      is_nan (Ball.y b + snd (Ball.velocity b) * f)%float = false ->
      kept_inside (Ball.y b + snd (Ball.velocity b) * f)%float (Ball.radius b) h
        (Ball.y (Ball.update w h f b))).
Proof.
  rewrite update_unfold. cbv zeta. cbn [Ball.x Ball.y Ball.radius].
  split; [reflexivity|]. split; apply bounce_kept_inside.
Qed.

(** The plain upper bound [x <= bound - radius] does not hold where the
    ball fits: on the 1030 x 1030 screen the sum [x + radius] of
    [edge_ball] rounds to 1030, so the ball is not clamped and stays at
    [x = 1015 + 2^-43], above [1030 - 15]. *)
Lemma upper_bound_is_rounded :
  (Ball.radius edge_ball <=? Py.Z2F 1030 - Ball.radius edge_ball)%float = true
  /\ is_nan (Ball.x edge_ball
             + fst (Ball.velocity edge_ball) * Ball.default_friction)%float = false
  /\ Ball.x (Ball.update 1030 1030 Ball.default_friction edge_ball)
     = Ball.x edge_ball
  /\ (Ball.x (Ball.update 1030 1030 Ball.default_friction edge_ball)
      <=? Py.Z2F 1030 - Ball.radius edge_ball)%float = false.
Proof. repeat split; vm_compute; reflexivity. Qed.

(** A NaN coordinate stays a NaN: every test of [Ball.update] is false on
    it, so no bound holds for it. *)
Lemma nan_coordinate_is_kept :
  (Ball.radius nan_ball <=? Py.Z2F 800 - Ball.radius nan_ball)%float = true
  /\ is_nan (Ball.x (Ball.update 800 600 Ball.default_friction nan_ball)) = true
  /\ (Ball.radius nan_ball
      <=? Ball.x (Ball.update 800 600 Ball.default_friction nan_ball))%float = false.
Proof. repeat split; vm_compute; reflexivity. Qed.

(** * Removal loops *)

Section Removal.
Import GameLogic.

Lemma list_remove_first_notin (r : ref) (l : list ref) :
  r ∉ l -> list_remove_first r l = l.
Proof.
  induction l as [|a l IH]; [reflexivity|]. cbn.
  rewrite not_elem_of_cons. intros [Hne Hnin].
  destruct (decide (a = r)); [congruence|]. rewrite IH by assumption.
  reflexivity.
Qed.

(** Removing elements other than the head leaves the head in place. *)
Lemma foldl_remove_head (a : ref) (rs l : list ref) :
  a ∉ rs ->
  foldl (fun l ball => list_remove_first ball l) (a :: l) rs
  = a :: foldl (fun l ball => list_remove_first ball l) l rs.
Proof.
  revert l. induction rs as [|r rs IH]; intros l Hnin; [reflexivity|].
  apply not_elem_of_cons in Hnin as [Hne Hnin]. cbn.
  destruct (decide (a = r)); [congruence|]. apply IH, Hnin.
Qed.

(** Collecting the elements that satisfy [P] and then removing each of
    them with [list.remove] keeps exactly the elements that do not
    satisfy [P], in their order. *)
Lemma foldl_remove_filter (P : ref -> Prop) `{!forall r, Decision (P r)}
    (l : list ref) :
  foldl (fun l ball => list_remove_first ball l) l (filter P l)
  = filter (fun r => ~ P r) l.
Proof.
  induction l as [|a l IH]; [reflexivity|].
  destruct (decide (P a)) as [Ha|Ha].
  - rewrite (filter_cons_True P) by assumption.
    rewrite (filter_cons_False (fun r => ~ P r)) by tauto.
    cbn. destruct (decide (a = a)); [|congruence]. exact IH.
  - rewrite (filter_cons_False P) by assumption.
    rewrite (filter_cons_True (fun r => ~ P r)) by assumption.
    rewrite foldl_remove_head, IH; [reflexivity|].
    rewrite list_elem_of_filter. tauto.
Qed.

(** The [in] guard of [_process_suction] changes nothing. *)
Lemma foldl_remove_guarded (rs l : list ref) :
  foldl remove_guarded l rs
  = foldl (fun l ball => list_remove_first ball l) l rs.
Proof.
  revert l. induction rs as [|r rs IH]; intros l; [reflexivity|]. cbn.
  rewrite IH. f_equal. unfold remove_guarded.
  destruct (decide (r ∈ l)); [reflexivity|].
  symmetry. apply list_remove_first_notin. assumption.
Qed.

(** *** The delete-zone loop *)

Lemma check_delete_zone_balls (g : t) :
  balls (_check_delete_zone g)
  = filter (fun r => ~ (ball_in_delete_zone g r = true)) (balls g).
Proof. unfold _check_delete_zone. cbn. apply foldl_remove_filter. Qed.

Lemma ball_in_delete_zone_eq (g : t) (r : ref) :
  ball_in_delete_zone g r
  = is_in_delete_zone g (Ball.x (store g r)) (Ball.y (store g r)).
Proof. reflexivity. Qed.

(** *** The suction loop *)

Lemma suction_step_spec (range : Z) (mouse : float * float)
    (s : ref -> Ball.t) (inv rem : list ref) (r : ref) :
  exists s',
    suction_step range mouse (s, inv, rem) r
    = (s',
       if swallowed range mouse (s r) then inv ++ [r] else inv,
       if swallowed range mouse (s r) then rem ++ [r] else rem)
    /\ s' r = suction_ball range mouse (s r)
    /\ forall k, k <> r -> s' k = s k.
Proof.
  unfold suction_step, swallowed, suction_ball.
  destruct (Py.fle _ range); cbn [andb].
  - eexists. split; [destruct (_ <? _)%float; reflexivity|].
    split; [apply fn_lookup_alter|].
    intros k Hk. apply fn_lookup_alter_ne. congruence.
  - exists s. auto.
Qed.

Lemma swallowed_same_place (range : Z) (mouse : float * float)
    (b b' : Ball.t) :
  same_place b b' -> swallowed range mouse b = swallowed range mouse b'.
Proof.
  intros (Hx & Hy & Hr). unfold swallowed, suction_distance.
  rewrite Hx, Hy, Hr. reflexivity.
Qed.

Lemma suction_ball_same_place (range : Z) (mouse : float * float)
    (b : Ball.t) :
  same_place (suction_ball range mouse b) b.
Proof.
  unfold suction_ball, same_place.
  destruct (Py.fle _ range); cbn; auto.
Qed.

(** The first loop of [_process_suction]: the balls it appends to the
    inventory and to [balls_to_remove] are the swallowed ones, in the
    order of [self.balls]; no ball changes place or radius. *)
Lemma suction_fold (range : Z) (mouse : float * float) (l : list ref) :
  forall (s : ref -> Ball.t) (inv rem : list ref),
  exists s',
    foldl (suction_step range mouse) (s, inv, rem) l
    = (s',
       inv ++ filter (fun r => swallowed range mouse (s r) = true) l,
       rem ++ filter (fun r => swallowed range mouse (s r) = true) l)
    /\ (forall k, same_place (s' k) (s k))
    /\ (forall k, k ∉ l -> s' k = s k)
    /\ (NoDup l -> forall k, k ∈ l -> s' k = suction_ball range mouse (s k)).
Proof.
  induction l as [|a l IH]; intros s inv rem.
  - exists s. cbn. rewrite !app_nil_r.
    split; [reflexivity|]. split; [intros k; repeat split|].
    split; [reflexivity|]. intros _ k Hk. inversion Hk.
  - destruct (suction_step_spec range mouse s inv rem a)
      as (s1 & Estep & Ha & Hother).
    assert (Hplace1 : forall k, same_place (s1 k) (s k)).
    { intros k. destruct (decide (k = a)) as [->|Hne].
      - rewrite Ha. apply suction_ball_same_place.
      - rewrite Hother by assumption. repeat split. }
    assert (Hfilter :
      filter (fun r => swallowed range mouse (s1 r) = true) l
      = filter (fun r => swallowed range mouse (s r) = true) l).
    { apply list_filter_iff. intros r.
      rewrite (swallowed_same_place range mouse _ _ (Hplace1 r)). tauto. }
    destruct (IH s1
                (if swallowed range mouse (s a) then inv ++ [a] else inv)
                (if swallowed range mouse (s a) then rem ++ [a] else rem))
      as (s' & Efold & Hplace & Hnot & Hin).
    exists s'. cbn [foldl]. rewrite Estep, Efold, Hfilter.
    split.
    { destruct (swallowed range mouse (s a)) eqn:Esw.
      - rewrite (filter_cons_True _ a l) by assumption.
        rewrite <- !app_assoc. reflexivity.
      - rewrite (filter_cons_False _ a l) by congruence. reflexivity. }
    split.
    { intros k. destruct (Hplace k) as (?&?&?), (Hplace1 k) as (?&?&?).
      repeat split; congruence. }
    split.
    { intros k Hk. apply not_elem_of_cons in Hk as [Hne Hk].
      rewrite Hnot by assumption. apply Hother, Hne. }
    intros Hnd k Hk. apply NoDup_cons in Hnd as [Hanin Hnd].
    apply elem_of_cons in Hk as [->|Hk].
    + rewrite Hnot by assumption. exact Ha.
    + rewrite (Hin Hnd k Hk). rewrite Hother; [reflexivity|].
      intros ->. contradiction.
Qed.

(** The lists after [_process_suction]: the swallowed balls have moved
    from [balls] to the end of [inventory], in order. *)
Lemma process_suction_spec (g : t) :
  balls (_process_suction g)
  = filter (fun r => ~ (swallowed (suction_range g) (suction_mouse_pos g)
                          (store g r) = true)) (balls g)
  /\ inventory (_process_suction g)
    = inventory g
      ++ filter (fun r => swallowed (suction_range g) (suction_mouse_pos g)
                            (store g r) = true) (balls g)
  /\ (forall k, same_place (store (_process_suction g) k) (store g k))
  /\ (forall k, k ∉ balls g -> store (_process_suction g) k = store g k)
  /\ (NoDup (balls g) -> forall k, k ∈ balls g ->
      store (_process_suction g) k
      = suction_ball (suction_range g) (suction_mouse_pos g) (store g k)).
Proof.
  unfold _process_suction.
  destruct (suction_fold (suction_range g) (suction_mouse_pos g) (balls g)
              (store g) (inventory g) [])
    as (s' & E & Hplace & Hnot & Hin).
  rewrite E. cbn.
  rewrite foldl_remove_guarded, foldl_remove_filter. auto.
Qed.

Lemma process_suction_frame (g : t) :
  screen_width (_process_suction g) = screen_width g
  /\ screen_height (_process_suction g) = screen_height g
  /\ next_ref (_process_suction g) = next_ref g
  /\ delete_zone_size (_process_suction g) = delete_zone_size g
  /\ delete_zone_x (_process_suction g) = delete_zone_x g
  /\ delete_zone_y (_process_suction g) = delete_zone_y g
  /\ suction_range (_process_suction g) = suction_range g
  /\ suction_active (_process_suction g) = suction_active g
  /\ suction_mouse_pos (_process_suction g) = suction_mouse_pos g.
Proof.
  unfold _process_suction.
  destruct (foldl _ _ _) as [[s inv] rem]. cbn. repeat split.
Qed.
End Removal.

(** * Ownership of the balls *)

Section Ownership.
Context `{PyLib}.
Import GameLogic.

Lemma update_phases (g : t) : update g = _check_delete_zone (before_check g).
Proof. reflexivity. Qed.

Lemma before_check_lists (g : t) :
  balls (before_check g) = filter (fun r => ~ transferred g r) (balls g)
  /\ inventory (before_check g)
     = inventory g ++ filter (transferred g) (balls g).
Proof.
  unfold before_check.
  change (suction_active (collided g)) with (suction_active g).
  assert (Hdef : forall r, transferred g r <->
            suction_active g = true
            /\ swallowed (suction_range g) (suction_mouse_pos g)
                  (store (collided g) r) = true) by reflexivity.
  destruct (suction_active g) eqn:Ea.
  - destruct (process_suction_spec (collided g)) as (Eb & Ei & _).
    rewrite Eb, Ei. cbn [collided _handle_collisions advance_all balls
      inventory set_store suction_range suction_mouse_pos].
    split; [|f_equal]; apply list_filter_iff; intros r;
      rewrite Hdef; tauto.
  - cbn [collided _handle_collisions advance_all balls inventory set_store].
    assert (Hno : forall r, ~ transferred g r).
    { intros r. rewrite Hdef. intros [? _]. discriminate. }
    split.
    + symmetry. induction (balls g) as [|a l IH]; [reflexivity|].
      rewrite filter_cons_True by apply Hno.
      f_equal. exact IH.
    + assert (E : filter (transferred g) (balls g) = []).
      { induction (balls g) as [|a l IH]; [reflexivity|].
        rewrite filter_cons_False by apply Hno. exact IH. }
      rewrite E, app_nil_r. reflexivity.
Qed.

Lemma before_check_frame (g : t) :
  screen_width (before_check g) = screen_width g
  /\ next_ref (before_check g) = next_ref g
  /\ delete_zone_size (before_check g) = delete_zone_size g
  /\ delete_zone_x (before_check g) = delete_zone_x g
  /\ delete_zone_y (before_check g) = delete_zone_y g
  /\ suction_range (before_check g) = suction_range g.
Proof.
  unfold before_check.
  change (suction_active (collided g)) with (suction_active g).
  destruct (suction_active g); [|cbn; repeat split].
  destruct (process_suction_frame (collided g)) as (?&?&?&?&?&?&?&?&?).
  repeat split; assumption.
Qed.

(** A suction transfer permutes the owned balls. *)
Lemma before_check_perm (g : t) :
  (balls (before_check g) ++ inventory (before_check g))
  ≡ₚ (balls g ++ inventory g).
Proof.
  destruct (before_check_lists g) as [-> ->].
  rewrite (Permutation_app_comm (inventory g)), app_assoc.
  apply Permutation_app_tail.
  rewrite Permutation_app_comm. apply filter_app_complement.
Qed.

Lemma update_lists (g : t) :
  balls (update g)
  = filter (fun r => ~ (ball_in_delete_zone (before_check g) r = true))
      (balls (before_check g))
  /\ inventory (update g) = inventory (before_check g)
  /\ store (update g) = store (before_check g).
Proof.
  rewrite update_phases. split; [apply check_delete_zone_balls|].
  split; reflexivity.
Qed.

Lemma owned_perm (g g' : t) :
  (balls g' ++ inventory g') ≡ₚ (balls g ++ inventory g) ->
  next_ref g' = next_ref g -> owned g -> owned g'.
Proof.
  intros Hp Hn [Hnd Hlt]. split.
  - rewrite Hp. exact Hnd.
  - intros r Hr. rewrite Hn. apply Hlt. rewrite <- Hp. exact Hr.
Qed.

Lemma owned_before_check (g : t) : owned g -> owned (before_check g).
Proof.
  apply owned_perm; [apply before_check_perm|].
  apply (before_check_frame g).
Qed.

Lemma owned_update (g : t) : owned g -> owned (update g).
Proof.
  intros Hg. apply owned_before_check in Hg as [Hnd Hlt].
  destruct (update_lists g) as (Eb & Ei & _).
  assert (Hsub : forall r, r ∈ balls (update g) ++ inventory (update g) ->
                           r ∈ balls (before_check g) ++ inventory (before_check g)).
  { intros r. rewrite Eb, Ei, !elem_of_app, list_elem_of_filter. tauto. }
  split.
  - rewrite Eb, Ei. apply NoDup_app in Hnd as (Hb & Hdisj & Hi).
    apply NoDup_app. split; [apply NoDup_filter, Hb|]. split; [|exact Hi].
    intros r Hr. apply Hdisj. apply list_elem_of_filter in Hr. tauto.
  - intros r Hr. rewrite update_phases. cbn [next_ref _check_delete_zone set_balls].
    apply Hlt, Hsub, Hr.
Qed.

Lemma configured_update (g : t) : configured g -> configured (update g).
Proof.
  unfold configured. rewrite update_phases.
  cbn [_check_delete_zone set_balls delete_zone_size delete_zone_x
       delete_zone_y suction_range screen_width].
  destruct (before_check_frame g) as (-> & _ & -> & -> & -> & ->). tauto.
Qed.

(** *** add_ball *)

Lemma add_ball_spec (px py : option float) (col : option (Z * Z * Z))
    (g : t) (rs : rng) :
  fst (fst (add_ball px py col g rs)) = next_ref g
  /\ balls (snd (fst (add_ball px py col g rs))) = balls g ++ [next_ref g]
  /\ inventory (snd (fst (add_ball px py col g rs))) = inventory g
  /\ next_ref (snd (fst (add_ball px py col g rs))) = S (next_ref g)
  /\ (forall k, k <> next_ref g ->
        store (snd (fst (add_ball px py col g rs))) k = store g k)
  /\ screen_width (snd (fst (add_ball px py col g rs))) = screen_width g
  /\ delete_zone_size (snd (fst (add_ball px py col g rs))) = delete_zone_size g
  /\ delete_zone_x (snd (fst (add_ball px py col g rs))) = delete_zone_x g
  /\ delete_zone_y (snd (fst (add_ball px py col g rs))) = delete_zone_y g
  /\ suction_range (snd (fst (add_ball px py col g rs))) = suction_range g.
Proof.
  unfold add_ball.
  destruct (match px with Some v => _ | None => _ end) as [px' rs1].
  destruct (match py with Some v => _ | None => _ end) as [py' rs2].
  destruct (Ball.init _ _ _ _ _ _) as [ball rs3]. cbn.
  repeat split. intros k Hk. apply fn_lookup_insert_ne. congruence.
Qed.

Lemma owned_add_ball px py col g rs :
  owned g -> owned (snd (fst (add_ball px py col g rs))).
Proof.
  intros [Hnd Hlt].
  destruct (add_ball_spec px py col g rs) as (_ & Eb & Ei & En & _).
  assert (Hfresh : next_ref g ∉ balls g ++ inventory g).
  { intros Hin. apply Hlt in Hin. lia. }
  assert (Hp : ((balls g ++ [next_ref g]) ++ inventory g)
               ≡ₚ (next_ref g :: (balls g ++ inventory g))).
  { rewrite <- app_assoc. cbn. symmetry. apply Permutation_middle. }
  split.
  - rewrite Eb, Ei, Hp. apply NoDup_cons. auto.
  - intros r. rewrite Eb, Ei, En, Hp, elem_of_cons.
    intros [->|Hr]; [lia|]. apply Hlt in Hr. lia.
Qed.

(** *** eject_ball *)

Lemma pop_nil : pop [] = None.
Proof. reflexivity. Qed.

Lemma pop_snoc (l : list ref) (a : ref) : pop (l ++ [a]) = Some (l, a).
Proof. unfold pop. rewrite last_snoc, removelast_last. reflexivity. Qed.

Lemma pop_None (l : list ref) : pop l = None <-> l = [].
Proof.
  split; [|intros ->; reflexivity].
  destruct l as [|a l] using rev_ind; [reflexivity|].
  rewrite pop_snoc. discriminate.
Qed.

Lemma eject_ball_empty mx my vel g rs :
  inventory g = [] -> eject_ball mx my vel g rs = (None, g, rs).
Proof. intros E. unfold eject_ball. rewrite E. reflexivity. Qed.

Lemma eject_ball_snoc mx my vel g rs inv b :
  inventory g = inv ++ [b] ->
  fst (fst (eject_ball mx my vel g rs)) = Some b
  /\ balls (snd (fst (eject_ball mx my vel g rs))) = balls g ++ [b]
  /\ inventory (snd (fst (eject_ball mx my vel g rs))) = inv
  /\ next_ref (snd (fst (eject_ball mx my vel g rs))) = next_ref g
  /\ Ball.x (store (snd (fst (eject_ball mx my vel g rs))) b) = mx
  /\ Ball.y (store (snd (fst (eject_ball mx my vel g rs))) b) = my
  /\ (forall v, vel = Some v ->
        Ball.velocity (store (snd (fst (eject_ball mx my vel g rs))) b) = v)
  /\ Ball.radius (store (snd (fst (eject_ball mx my vel g rs))) b)
     = Ball.radius (store g b)
  /\ Ball.color (store (snd (fst (eject_ball mx my vel g rs))) b)
     = Ball.color (store g b)
  /\ (forall k, k <> b ->
        store (snd (fst (eject_ball mx my vel g rs))) k = store g k)
  /\ screen_width (snd (fst (eject_ball mx my vel g rs))) = screen_width g
  /\ delete_zone_size (snd (fst (eject_ball mx my vel g rs))) = delete_zone_size g
  /\ delete_zone_x (snd (fst (eject_ball mx my vel g rs))) = delete_zone_x g
  /\ delete_zone_y (snd (fst (eject_ball mx my vel g rs))) = delete_zone_y g
  /\ suction_range (snd (fst (eject_ball mx my vel g rs))) = suction_range g.
Proof.
  intros E. unfold eject_ball. rewrite E, pop_snoc.
  destruct (match vel with Some v => _ | None => _ end) as [v' rs'] eqn:Ev.
  cbn [fst snd balls inventory next_ref store screen_width delete_zone_size
       delete_zone_x delete_zone_y suction_range].
  rewrite !fn_lookup_alter. cbn.
  repeat split.
  - intros v ->. congruence.
  - intros k Hk. rewrite !fn_lookup_alter_ne by congruence. reflexivity.
Qed.

Lemma owned_eject_ball mx my vel g rs :
  owned g -> owned (snd (fst (eject_ball mx my vel g rs))).
Proof.
  destruct (inventory g) as [|b inv _] eqn:E using rev_ind.
  - rewrite eject_ball_empty by assumption. auto.
  - destruct (eject_ball_snoc mx my vel g rs inv b E)
      as (_ & Eb & Ei & En & _).
    apply owned_perm; [|assumption].
    rewrite Eb, Ei, E, <- app_assoc.
    apply Permutation_app_head, Permutation_app_comm.
Qed.

(** *** Reachable states *)

Lemma reachable_owned (g : t) : reachable g -> owned g.
Proof.
  induction 1.
  - split; [constructor|]. intros r Hr. inversion Hr.
  - apply owned_add_ball. assumption.
  - apply owned_update. assumption.
  - assumption.
  - assumption.
  - apply owned_eject_ball. assumption.
Qed.

Lemma reachable_configured (g : t) : reachable g -> configured g.
Proof.
  induction 1 as [w h|px py col g rs _ IH|g _ IH|mx my g _ IH|g _ IH
                 |mx my vel g rs _ IH].
  - cbn. unfold configured. cbn. auto.
  - destruct (add_ball_spec px py col g rs)
      as (_ & _ & _ & _ & _ & Ew & Es & Ex & Ey & Er).
    unfold configured. rewrite Ew, Es, Ex, Ey, Er. exact IH.
  - apply configured_update. assumption.
  - exact IH.
  - exact IH.
  - destruct (inventory g) as [|b inv _] eqn:E using rev_ind.
    + rewrite eject_ball_empty by assumption. exact IH.
    + destruct (eject_ball_snoc mx my vel g rs inv b E)
        as (_&_&_&_&_&_&_&_&_&_& Ew & Es & Ex & Ey & Er).
      unfold configured. rewrite Ew, Es, Ex, Ey, Er. exact IH.
Qed.
End Ownership.

(** * Suction *)

(** ** C1 *)

(** The velocity every attracted ball receives: for an active ball listed
    once, within the suction range, [_process_suction] sets the velocity to
    [pulled_velocity], whose direction is [(ball - focus) / distance]. *)
Lemma suction_velocity (g : GameLogic.t) (r : GameLogic.ref) :
  NoDup (GameLogic.balls g) -> r ∈ GameLogic.balls g ->
  Py.fle (GameLogic.suction_distance (GameLogic.suction_mouse_pos g)
            (GameLogic.store g r)) (GameLogic.suction_range g) = true ->
  Ball.velocity (GameLogic.store (GameLogic._process_suction g) r)
  = GameLogic.pulled_velocity (GameLogic.suction_range g)
      (GameLogic.suction_mouse_pos g) (GameLogic.store g r).
Proof.
  intros Hnd Hr Hin.
  destruct (process_suction_spec g) as (_ & _ & _ & _ & Hs).
  rewrite (Hs Hnd r Hr). unfold suction_ball. rewrite Hin. reflexivity.
Qed.

(** C1 at the ball at distance 50: the suction phase adds an impulse of
    magnitude 0.75, but along [(ball - focus) / distance = (1, 0)], away
    from the focus; the velocity becomes (0.75, 0) where the claim has
    (-0.75, 0).  The same holds through a whole [update]. *)
Theorem C1_suction_impulse_at_distance_50 :
  GameLogic.suction_distance (100%float, 100%float) resting_ball = 50%float
  /\ Ball.velocity
       (GameLogic.store (GameLogic._process_suction suction_state) 0%nat)
     = (0.75%float, 0%float)
  /\ Ball.velocity
       (GameLogic.store (GameLogic._process_suction suction_state) 0%nat)
     <> ((-0.75)%float, 0%float)
  /\ Ball.velocity (GameLogic.store (GameLogic.update suction_state) 0%nat)
     = (0.75%float, 0%float).
Proof.
  split; [vm_compute; reflexivity|].
  split; [vm_compute; reflexivity|].
  split; [vm_compute; discriminate|].
  vm_compute; reflexivity.
Qed.

(** * Ownership, ejection and the delete zone *)

Lemma swallowed_state_reachable : GameLogic.reachable (H := fixed_lib) swallowed_state.
Proof. repeat constructor. Qed.

Lemma swallowed_state_lists :
  GameLogic.balls swallowed_state = []
  /\ GameLogic.inventory swallowed_state = [0%nat].
Proof. split; vm_compute; reflexivity. Qed.

Section Claims.
Context `{PyLib}.
Import GameLogic.

Lemma size_perm (g g' : t) :
  (balls g' ++ inventory g') ≡ₚ (balls g ++ inventory g) ->
  total_balls g' = total_balls g.
Proof.
  intros Hp. apply Permutation_length in Hp.
  rewrite !length_app in Hp. exact Hp.
Qed.

Lemma length_filter_complement (P : ref -> Prop) `{!forall r, Decision (P r)}
    (l : list ref) :
  (length (filter P l) + length (filter (fun r => ~ P r) l))%nat = length l.
Proof.
  rewrite <- length_app. apply Permutation_length, filter_app_complement.
Qed.

(** ** C7 *)

(** C7: [eject_ball] returns [None] exactly when the inventory is empty, and
    then changes nothing; otherwise it removes the last inventory ball, puts
    it at [(x, y)], gives it the supplied velocity, appends it to [balls]
    and returns it.  Hence after [a] then [b] have entered the inventory,
    [b] is ejected first and [a] next; the suction phase appends the balls
    it swallows in the order of [balls]. *)
Theorem C7_eject_ball_lifo (mx my : float) (vel : option (float * float))
    (g : t) (rs : rng) :
  (fst (fst (eject_ball mx my vel g rs)) = None <-> inventory g = [])
  /\ (inventory g = [] -> eject_ball mx my vel g rs = (None, g, rs))
  /\ (forall inv b, inventory g = inv ++ [b] ->
        fst (fst (eject_ball mx my vel g rs)) = Some b
        /\ inventory (snd (fst (eject_ball mx my vel g rs))) = inv
        /\ balls (snd (fst (eject_ball mx my vel g rs))) = balls g ++ [b]
        /\ Ball.x (store (snd (fst (eject_ball mx my vel g rs))) b) = mx
        /\ Ball.y (store (snd (fst (eject_ball mx my vel g rs))) b) = my
        /\ (forall v, vel = Some v ->
              Ball.velocity (store (snd (fst (eject_ball mx my vel g rs))) b) = v)
        /\ (forall k, k <> b ->
              store (snd (fst (eject_ball mx my vel g rs))) k = store g k))
  /\ (forall inv a b, inventory g = inv ++ [a; b] ->
        fst (fst (eject_ball mx my vel g rs)) = Some b
        /\ forall mx' my' vel' rs',
             fst (fst (eject_ball mx' my' vel'
                         (snd (fst (eject_ball mx my vel g rs))) rs')) = Some a)
  /\ (forall a b,
        filter (fun r => swallowed (suction_range g) (suction_mouse_pos g)
                           (store g r) = true) (balls g) = [a; b] ->
        inventory (_process_suction g) = inventory g ++ [a; b]
        /\ fst (fst (eject_ball mx my vel (_process_suction g) rs)) = Some b).
Proof.
  split.
  { split.
    - destruct (inventory g) as [|b inv _] eqn:E using rev_ind; [reflexivity|].
      destruct (eject_ball_snoc mx my vel g rs inv b E) as (-> & _).
      discriminate.
    - intros E. rewrite eject_ball_empty by assumption. reflexivity. }
  split; [apply eject_ball_empty|].
  split.
  { intros inv b E.
    destruct (eject_ball_snoc mx my vel g rs inv b E)
      as (?&?&?&?&?&?&?&?&?&?&_). auto 10. }
  split.
  { intros inv a b E.
    change (inv ++ [a; b]) with (inv ++ [a] ++ [b]) in E.
    rewrite app_assoc in E.
    destruct (eject_ball_snoc mx my vel g rs (inv ++ [a]) b E)
      as (Er & _ & Ei & _).
    split; [exact Er|]. intros mx' my' vel' rs'.
    destruct (eject_ball_snoc mx' my' vel' _ rs' inv a Ei) as (Er' & _).
    exact Er'. }
  intros a b E.
  destruct (process_suction_spec g) as (_ & Ei & _). rewrite E in Ei.
  split; [exact Ei|].
  change (inventory g ++ [a; b]) with (inventory g ++ [a] ++ [b]) in Ei.
  rewrite app_assoc in Ei.
  destruct (eject_ball_snoc mx my vel _ rs _ b Ei) as (Er & _). exact Er.
Qed.

(** ** C5 *)

(** C5, amended: in every reachable state no ball is listed twice, within
    or across [balls] and [inventory].  [add_ball] appends a ball that was
    in neither list, so the total grows by one; [eject_ball] moves a ball
    from the inventory to [balls], or does nothing, so the total is
    unchanged; [start_suction] and [stop_suction] leave both lists alone;
    the suction phase of [update] permutes the owned balls; the delete-zone
    check then removes exactly the active balls in the zone, so the total
    of [update] drops by their number and every ball owned before is owned
    after unless it was removed by that check. *)
Theorem C5_ownership (g : t) :
  reachable g ->
  NoDup (balls g ++ inventory g)
  /\ (forall px py col rs,
        balls (snd (fst (add_ball px py col g rs)))
        = balls g ++ [fst (fst (add_ball px py col g rs))]
        /\ inventory (snd (fst (add_ball px py col g rs))) = inventory g
        /\ (fst (fst (add_ball px py col g rs)) ∉ balls g ++ inventory g)
        /\ total_balls (snd (fst (add_ball px py col g rs))) = S (total_balls g))
  /\ (forall mx my vel rs,
        (balls (snd (fst (eject_ball mx my vel g rs)))
           ++ inventory (snd (fst (eject_ball mx my vel g rs))))
        ≡ₚ (balls g ++ inventory g)
        /\ total_balls (snd (fst (eject_ball mx my vel g rs))) = total_balls g)
  /\ (forall mx my,
        balls (start_suction mx my g) = balls g
        /\ inventory (start_suction mx my g) = inventory g)
  /\ (balls (stop_suction g) = balls g
      /\ inventory (stop_suction g) = inventory g)
  /\ ((balls (before_check g) ++ inventory (before_check g))
      ≡ₚ (balls g ++ inventory g)
      /\ total_balls (before_check g) = total_balls g)
  /\ ((total_balls (update g)
       + length (filter (fun r => ball_in_delete_zone (before_check g) r = true)
                   (balls (before_check g))))%nat = total_balls g
      /\ forall r, r ∈ balls g ++ inventory g ->
           r ∈ balls (update g) ++ inventory (update g)
           \/ (r ∈ balls (before_check g)
               /\ ball_in_delete_zone (before_check g) r = true)).
Proof.
  intros Hreach. pose proof (reachable_owned g Hreach) as [Hnd Hlt].
  split; [exact Hnd|].
  split.
  { intros px py col rs.
    destruct (add_ball_spec px py col g rs) as (Er & Eb & Ei & _).
    rewrite Er. split; [exact Eb|]. split; [exact Ei|].
    split.
    - intros Hin. apply Hlt in Hin. lia.
    - unfold total_balls. rewrite Eb, Ei, length_app. cbn. lia. }
  split.
  { intros mx my vel rs.
    assert (Hp : (balls (snd (fst (eject_ball mx my vel g rs)))
                    ++ inventory (snd (fst (eject_ball mx my vel g rs))))
                 ≡ₚ (balls g ++ inventory g)).
    { destruct (inventory g) as [|b inv _] eqn:E using rev_ind.
      - rewrite eject_ball_empty by assumption. cbn. rewrite E. reflexivity.
      - destruct (eject_ball_snoc mx my vel g rs inv b E) as (_ & Eb & Ei & _).
        rewrite Eb, Ei, <- app_assoc.
        apply Permutation_app_head, Permutation_app_comm. }
    split; [exact Hp|]. apply size_perm, Hp. }
  split; [intros mx my; split; reflexivity|].
  split; [split; reflexivity|].
  split; [split; [apply before_check_perm | apply size_perm, before_check_perm]|].
  destruct (update_lists g) as (Eb & Ei & _).
  split.
  - rewrite <- (size_perm _ _ (before_check_perm g)).
    unfold total_balls. rewrite Eb, Ei.
    pose proof (length_filter_complement
      (fun r => ball_in_delete_zone (before_check g) r = true)
      (balls (before_check g))). lia.
  - intros r Hr. rewrite <- (before_check_perm g) in Hr.
    rewrite Eb, Ei, !elem_of_app, list_elem_of_filter.
    apply elem_of_app in Hr as [Hr|Hr]; [|auto].
    destruct (ball_in_delete_zone (before_check g) r) eqn:Ez; [auto|].
    left. left. split; [congruence|exact Hr].
Qed.

(** ** C6 *)

(** C6: [update] ends with the delete-zone check.  Every active ball whose
    center is in the zone at that point is gone from [balls] and is not in
    the inventory; the check leaves the inventory as the suction phase made
    it, so a ball transferred in this [update] stays in the inventory,
    wherever its center is. *)
Theorem C6_delete_zone_removal (g : t) :
  reachable g ->
  update g = _check_delete_zone (before_check g)
  /\ inventory (update g) = inventory (before_check g)
  /\ (forall r,
        r ∈ balls (before_check g) ->
        is_in_delete_zone (before_check g)
          (Ball.x (store (before_check g) r))
          (Ball.y (store (before_check g) r)) = true ->
        (r ∉ balls (update g)) /\ (r ∉ inventory (update g)))
  /\ (forall r,
        r ∈ balls g -> transferred g r ->
        (r ∈ inventory (update g)) /\ (r ∉ balls (before_check g))
        /\ (r ∉ balls (update g))).
Proof.
  intros Hreach.
  pose proof (owned_before_check g (reachable_owned g Hreach)) as [Hnd _].
  apply NoDup_app in Hnd as (_ & Hdisj & _).
  destruct (update_lists g) as (Eb & Ei & _).
  destruct (before_check_lists g) as (Eb' & Ei').
  split; [apply update_phases|]. split; [exact Ei|].
  split.
  - intros r Hr Hz. split.
    + rewrite Eb, list_elem_of_filter. rewrite ball_in_delete_zone_eq. tauto.
    + rewrite Ei. apply Hdisj, Hr.
  - intros r Hr Ht.
    assert (Hinv : r ∈ inventory (before_check g)).
    { rewrite Ei', elem_of_app, list_elem_of_filter. auto. }
    assert (Hnb : r ∉ balls (before_check g)).
    { rewrite Eb', list_elem_of_filter. tauto. }
    split; [rewrite Ei; exact Hinv|]. split; [exact Hnb|].
    rewrite Eb, list_elem_of_filter. tauto.
Qed.

(** ** C10 *)

(** C10: in a reachable state [get_delete_zone_bounds] is the square
    [(width - 100, 0, 100, 100)]; [is_in_delete_zone] is membership in that
    rectangle, closed on all four sides; and the delete-zone check of
    [update], which works on the same rectangle, keeps exactly the active
    balls whose center [is_in_delete_zone] rejects. *)
Theorem C10_delete_zone_definitions_agree (g : t) :
  reachable g ->
  get_delete_zone_bounds g = (screen_width g - 100, 0, 100, 100)
  /\ (forall px py,
        is_in_delete_zone g px py = in_rect (get_delete_zone_bounds g) px py)
  /\ (forall px py,
        is_in_delete_zone (before_check g) px py = is_in_delete_zone g px py)
  /\ (forall r,
        r ∈ balls (update g) <->
        r ∈ balls (before_check g)
        /\ is_in_delete_zone g (Ball.x (store (before_check g) r))
             (Ball.y (store (before_check g) r)) = false).
Proof.
  intros Hreach.
  destruct (reachable_configured g Hreach) as (Es & Ex & Ey & _).
  assert (Hsame : forall px py,
            is_in_delete_zone (before_check g) px py = is_in_delete_zone g px py).
  { intros px py. unfold is_in_delete_zone.
    destruct (before_check_frame g) as (-> & _ & -> & -> & _). reflexivity. }
  split; [unfold get_delete_zone_bounds; rewrite Es, Ex, Ey; reflexivity|].
  split.
  { intros px py. unfold is_in_delete_zone, get_delete_zone_bounds, in_rect.
    rewrite Es, Ex, Ey.
    replace (screen_width g - 100 + 100) with (screen_width g) by lia.
    reflexivity. }
  split; [exact Hsame|].
  intros r. destruct (update_lists g) as (-> & _).
  rewrite list_elem_of_filter, ball_in_delete_zone_eq, Hsame.
  destruct (is_in_delete_zone g _ _); intuition congruence.
Qed.

End Claims.

(** C5 fails as stated: with the inventory holding one ball, a successful
    [eject_ball] leaves [size(active) + size(inventory)] at 1. *)
Lemma C5_counterexample : ~ (forall lib : PyLib, @C5_eject_as_stated lib).
Proof.
  intros Hc.
  pose proof (Hc fixed_lib 5%float 6%float (Some (0%float, 0%float))
                swallowed_state tt swallowed_state_reachable) as Hs.
  assert (Hne : GameLogic.inventory swallowed_state <> [])
    by (rewrite (proj2 swallowed_state_lists); discriminate).
  specialize (Hs Hne). vm_compute in Hs. discriminate.
Qed.

(** * The theorems at concrete inputs *)

Lemma frame_state_reachable : GameLogic.reachable (H := fixed_lib) frame_state.
Proof. repeat constructor. Qed.

Lemma frame_state_lists :
  GameLogic.balls frame_state = [0%nat; 1%nat]
  /\ GameLogic.inventory frame_state = []
  /\ GameLogic.balls (before_check frame_state) = [1%nat]
  /\ GameLogic.inventory (before_check frame_state) = [0%nat]
  /\ GameLogic.balls (GameLogic.update frame_state) = []
  /\ GameLogic.inventory (GameLogic.update frame_state) = [0%nat].
Proof. repeat split; vm_compute; reflexivity. Qed.

(** C5 (amended) at [frame_state]. *)
Lemma C5_ownership_witness :
  GameLogic.reachable (H := fixed_lib) frame_state
  /\ NoDup (GameLogic.balls frame_state ++ GameLogic.inventory frame_state)
  /\ (total_balls (GameLogic.update frame_state)
      + length (filter
          (fun r => GameLogic.ball_in_delete_zone (before_check frame_state) r = true)
          (GameLogic.balls (before_check frame_state))))%nat
     = total_balls frame_state.
Proof.
  split; [exact frame_state_reachable|].
  destruct (C5_ownership frame_state frame_state_reachable)
    as (Hnd & _ & _ & _ & _ & _ & Hsize & _).
  split; [exact Hnd | exact Hsize].
Defined.

(** C6 at [frame_state]: ball 1 is deleted, ball 0 is transferred and kept. *)
Lemma C6_delete_zone_removal_witness :
  GameLogic.reachable (H := fixed_lib) frame_state
  /\ ((1%nat ∉ GameLogic.balls (GameLogic.update frame_state))
      /\ (1%nat ∉ GameLogic.inventory (GameLogic.update frame_state)))
  /\ ((0%nat ∈ GameLogic.inventory (GameLogic.update frame_state))
      /\ (0%nat ∉ GameLogic.balls (before_check frame_state))
      /\ (0%nat ∉ GameLogic.balls (GameLogic.update frame_state))).
Proof.
  split; [exact frame_state_reachable|].
  destruct (C6_delete_zone_removal frame_state frame_state_reachable)
    as (_ & _ & Hdel & Htr).
  split.
  - apply Hdel.
    + rewrite (proj1 (proj2 (proj2 frame_state_lists))). apply elem_of_cons.
      left. reflexivity.
    + vm_compute. reflexivity.
  - apply Htr.
    + rewrite (proj1 frame_state_lists). apply elem_of_cons. left. reflexivity.
    + split; vm_compute; reflexivity.
Defined.

(** C10 at [frame_state] and the point (799, 1). *)
Lemma C10_delete_zone_definitions_agree_witness :
  GameLogic.reachable (H := fixed_lib) frame_state
  /\ GameLogic.get_delete_zone_bounds frame_state = (700, 0, 100, 100)
  /\ GameLogic.is_in_delete_zone frame_state 799 1
     = in_rect (GameLogic.get_delete_zone_bounds frame_state) 799 1.
Proof.
  split; [exact frame_state_reachable|].
  destruct (C10_delete_zone_definitions_agree frame_state frame_state_reachable)
    as (Hb & Hin & _).
  split; [exact Hb | apply Hin].
Defined.

(** C7 at [swallowed_state], ejecting with the velocity (1, 2). *)
Lemma C7_eject_ball_lifo_witness :
  GameLogic.inventory swallowed_state = [] ++ [0%nat]
  /\ fst (fst (GameLogic.eject_ball (H := fixed_lib) 5 6
                 (Some (1%float, 2%float)) swallowed_state tt)) = Some 0%nat
  /\ Ball.velocity
       (GameLogic.store
          (snd (fst (GameLogic.eject_ball (H := fixed_lib) 5 6
                       (Some (1%float, 2%float)) swallowed_state tt))) 0%nat)
     = (1%float, 2%float).
Proof.
  assert (E : GameLogic.inventory swallowed_state = [] ++ [0%nat])
    by (vm_compute; reflexivity).
  split; [exact E|].
  destruct (C7_eject_ball_lifo (H := fixed_lib) 5 6 (Some (1%float, 2%float))
              swallowed_state tt) as (_ & _ & Hpop & _).
  destruct (Hpop [] 0%nat E) as (Hr & _ & _ & _ & _ & Hv & _).
  split; [exact Hr | apply Hv; reflexivity].
Defined.

(** C8 (amended) at [left_ball] on the 800 x 600 screen: x is clamped at
    the left bound, y is not clamped. *)
Lemma C8_update_keeps_ball_inside_witness :
  ((Ball.radius left_ball <=? Py.Z2F 800 - Ball.radius left_ball)%float = true
   /\ is_nan (Ball.x left_ball
              + fst (Ball.velocity left_ball) * Ball.default_friction)%float = false
   /\ kept_inside
        (Ball.x left_ball + fst (Ball.velocity left_ball) * Ball.default_friction)%float
        (Ball.radius left_ball) 800
        (Ball.x (Ball.update 800 600 Ball.default_friction left_ball)))
  /\ ((Ball.radius left_ball <=? Py.Z2F 600 - Ball.radius left_ball)%float = true
      /\ is_nan (Ball.y left_ball
                 + snd (Ball.velocity left_ball) * Ball.default_friction)%float = false
      /\ kept_inside
           (Ball.y left_ball + snd (Ball.velocity left_ball) * Ball.default_friction)%float
           (Ball.radius left_ball) 600
           (Ball.y (Ball.update 800 600 Ball.default_friction left_ball))).
Proof.
  assert (Hfx : (Ball.radius left_ball
                   <=? Py.Z2F 800 - Ball.radius left_ball)%float = true)
    by (vm_compute; reflexivity).
  assert (Hfy : (Ball.radius left_ball
                   <=? Py.Z2F 600 - Ball.radius left_ball)%float = true)
    by (vm_compute; reflexivity).
  assert (Hnx : is_nan (Ball.x left_ball
                        + fst (Ball.velocity left_ball) * Ball.default_friction)%float
                = false) by (vm_compute; reflexivity).
  assert (Hny : is_nan (Ball.y left_ball
                        + snd (Ball.velocity left_ball) * Ball.default_friction)%float
                = false) by (vm_compute; reflexivity).
  destruct (C8_update_keeps_ball_inside left_ball 800 600 Ball.default_friction)
    as (_ & Hx & Hy).
  split; (split; [assumption|split; [assumption|]]).
  - exact (Hx Hfx Hnx).
  - exact (Hy Hfy Hny).
Defined.

(** [suction_velocity] at [suction_state]. *)
Lemma suction_velocity_witness :
  Ball.velocity (GameLogic.store (GameLogic._process_suction suction_state) 0%nat)
  = GameLogic.pulled_velocity (GameLogic.suction_range suction_state)
      (GameLogic.suction_mouse_pos suction_state)
      (GameLogic.store suction_state 0%nat).
Proof.
  apply (suction_velocity suction_state 0%nat).
  - apply NoDup_singleton.
  - apply elem_of_cons. left. reflexivity.
  - vm_compute. reflexivity.
Defined.

(** * Signs of float results *)

Lemma binary_round_aux_sign (s : bool) (m e : Z) (l : location) :
  binary_round_aux prec emax s m e l = S754_nan
  \/ (exists s', binary_round_aux prec emax s m e l = S754_zero s')
  \/ binary_round_aux prec emax s m e l = S754_infinity s
  \/ exists m' e', binary_round_aux prec emax s m e l = S754_finite s m' e'.
Proof.
  unfold binary_round_aux.
  destruct (shr_fexp prec emax m e l) as [mrs' e'].
  destruct (shr_fexp prec emax _ e' loc_Exact) as [mrs'' e''].
  destruct (shr_m mrs'') as [|p|p]; [right; left; eauto| |left; reflexivity].
  destruct (e'' <=? emax - prec); [right; right; right; eauto|right; right; left; reflexivity].
Qed.

Lemma flt_zero_not_negative (f : float) :
  sf_not_negative (Prim2SF f) -> Py.flt f 0 = false.
Proof.
  unfold Py.flt, Py.cmp_float_int.
  destruct (Prim2SF f) as [s|s| |s m e]; cbn; try reflexivity.
  - destruct s; [contradiction|reflexivity].
  - destruct s; [contradiction|]. intros _.
    destruct (0 <=? e) eqn:He.
    + apply Z.leb_le in He.
      assert (0 < Z.pos m * 2 ^ e) by (apply Z.mul_pos_pos; [lia|apply Z.pow_pos_nonneg; lia]).
      destruct (Z.compare_spec (Z.pos m * 2 ^ e) 0); [lia|lia|reflexivity].
    + reflexivity.
Qed.

Lemma fgt_zero_not_positive (f : float) :
  sf_not_positive (Prim2SF f) -> Py.fgt f 0 = false.
Proof.
  unfold Py.fgt, Py.cmp_float_int.
  destruct (Prim2SF f) as [s|s| |s m e]; cbn; try reflexivity.
  - destruct s; [reflexivity|contradiction].
  - destruct s; [|contradiction]. intros _.
    destruct (0 <=? e) eqn:He.
    + apply Z.leb_le in He.
      assert (0 < Z.pos m * 2 ^ e) by (apply Z.mul_pos_pos; [lia|apply Z.pow_pos_nonneg; lia]).
      change (Z.neg m) with (- Z.pos m).
      destruct (Z.compare_spec (- Z.pos m * 2 ^ e) 0); [lia|reflexivity|lia].
    + reflexivity.
Qed.

(** [abs v * 0.8] is not negative and [- abs v * 0.8] is not positive. *)
Lemma bounce_speed_not_negative (v : float) :
  sf_not_negative (Prim2SF (abs v * 0.8)%float).
Proof.
  rewrite mul_spec, abs_spec.
  change (Prim2SF 0.8%float) with (S754_finite false 7205759403792794 (-53)).
  destruct (Prim2SF v) as [s|s| |s m e]; cbn; try exact I.
  destruct (binary_round_aux_sign false (Z.pos (m * 7205759403792794)) (e + -53) loc_Exact)
    as [E|[[s' E]|[E|(m' & e' & E)]]]; unfold SF64mul, SFmul in *; cbn in *; rewrite E; exact I.
Qed.

Lemma bounce_speed_not_positive (v : float) :
  sf_not_positive (Prim2SF (- abs v * 0.8)%float).
Proof.
  rewrite mul_spec, opp_spec, abs_spec.
  change (Prim2SF 0.8%float) with (S754_finite false 7205759403792794 (-53)).
  destruct (Prim2SF v) as [s|s| |s m e]; cbn; try exact I.
  destruct (binary_round_aux_sign true (Z.pos (m * 7205759403792794)) (e + -53) loc_Exact)
    as [E|[[s' E]|[E|(m' & e' & E)]]]; unfold SF64mul, SFmul in *; cbn in *; rewrite E; exact I.
Qed.

(** After [Ball.update], a coordinate clamped at the low bound comes with a
    velocity component that is not negative, and one clamped at the high
    bound with a component that is not positive: a bounce never leaves the
    ball moving further into the wall it hit. *)
Theorem update_bounce_points_inward (b : Ball.t) (w h : Z) (f : float) :
  (Py.flt (Ball.x b + fst (Ball.velocity b) * f - Ball.radius b)%float 0 = true ->
   Py.flt (fst (Ball.velocity (Ball.update w h f b))) 0 = false)
  /\ (Py.flt (Ball.x b + fst (Ball.velocity b) * f - Ball.radius b)%float 0 = false ->
      Py.fgt (Ball.x b + fst (Ball.velocity b) * f + Ball.radius b)%float w = true ->
      Py.fgt (fst (Ball.velocity (Ball.update w h f b))) 0 = false)
  /\ (Py.flt (Ball.y b + snd (Ball.velocity b) * f - Ball.radius b)%float 0 = true ->
      Py.flt (snd (Ball.velocity (Ball.update w h f b))) 0 = false)
  /\ (Py.flt (Ball.y b + snd (Ball.velocity b) * f - Ball.radius b)%float 0 = false ->
      Py.fgt (Ball.y b + snd (Ball.velocity b) * f + Ball.radius b)%float h = true ->
      Py.fgt (snd (Ball.velocity (Ball.update w h f b))) 0 = false).
Proof.
  rewrite update_unfold. cbv zeta. cbn [Ball.velocity fst snd].
  unfold Ball.bounce.
  repeat split.
  - intros ->. cbn [snd]. apply flt_zero_not_negative, bounce_speed_not_negative.
  - intros -> ->. cbn [snd]. apply fgt_zero_not_positive, bounce_speed_not_positive.
  - intros ->. cbn [snd]. apply flt_zero_not_negative, bounce_speed_not_negative.
  - intros -> ->. cbn [snd]. apply fgt_zero_not_positive, bounce_speed_not_positive.
Qed.

(** [update_bounce_points_inward] at [left_ball], which bounces off x = 0. *)
Lemma update_bounce_points_inward_witness :
  Py.flt (Ball.x left_ball + fst (Ball.velocity left_ball) * Ball.default_friction
          - Ball.radius left_ball)%float 0 = true
  /\ Py.flt (fst (Ball.velocity (Ball.update 800 600 Ball.default_friction left_ball))) 0
     = false.
Proof.
  assert (Hc : Py.flt (Ball.x left_ball
                       + fst (Ball.velocity left_ball) * Ball.default_friction
                       - Ball.radius left_ball)%float 0 = true)
    by (vm_compute; reflexivity).
  split; [exact Hc|].
  exact (proj1 (update_bounce_points_inward left_ball 800 600 Ball.default_friction) Hc).
Defined.

(** * Symmetry of the collision test *)

Lemma binary_round_aux_abs (s s' : bool) (m e : Z) (l : location) :
  SFabs (binary_round_aux prec emax s m e l)
  = SFabs (binary_round_aux prec emax s' m e l).
Proof.
  unfold binary_round_aux.
  destruct (shr_fexp prec emax m e l) as [mrs' e'].
  destruct (shr_fexp prec emax _ e' loc_Exact) as [mrs'' e''].
  destruct (shr_m mrs''); [reflexivity| |reflexivity].
  destruct (e'' <=? emax - prec); reflexivity.
Qed.

Lemma binary_normalize_abs_opp (m e : Z) :
  SFabs (binary_normalize prec emax (- m) e false)
  = SFabs (binary_normalize prec emax m e false).
Proof.
  destruct m as [|p|p]; [reflexivity| |].
  - change (- Z.pos p) with (Z.neg p). unfold binary_normalize, binary_round.
    destruct (shl_align _ _ _). apply binary_round_aux_abs.
  - change (- Z.neg p) with (Z.pos p). unfold binary_normalize, binary_round.
    destruct (shl_align _ _ _). apply binary_round_aux_abs.
Qed.

(** [a - b] and [b - a] have the same absolute value. *)
Lemma SFsub_abs_swap (a b : spec_float) :
  SFabs (SFsub prec emax a b) = SFabs (SFsub prec emax b a).
Proof.
  destruct a as [sa|sa| |sa ma ea], b as [sb|sb| |sb mb eb]; cbn;
    try reflexivity; try (destruct sa, sb; reflexivity).
  rewrite (Z.min_comm eb ea), <- binary_normalize_abs_opp. f_equal. f_equal. lia.
Qed.

(** A square depends on the absolute value only. *)
Lemma SFmul_square_abs (a b : spec_float) :
  SFabs a = SFabs b -> SFmul prec emax a a = SFmul prec emax b b.
Proof.
  destruct a as [sa|sa| |sa ma ea], b as [sb|sb| |sb mb eb]; cbn;
    intros E; try discriminate; try reflexivity;
    try (destruct sa, sb; reflexivity).
  injection E as -> ->. destruct sa, sb; reflexivity.
Qed.

Lemma float_square_diff_swap (a b : float) :
  ((a - b) * (a - b))%float = ((b - a) * (b - a))%float.
Proof.
  apply Prim2SF_inj. rewrite !mul_spec, !sub_spec.
  apply SFmul_square_abs, SFsub_abs_swap.
Qed.

Lemma SFadd_comm (a b : spec_float) : SFadd prec emax a b = SFadd prec emax b a.
Proof.
  destruct a as [sa|sa| |sa ma ea], b as [sb|sb| |sb mb eb]; cbn;
    try reflexivity; try (destruct sa, sb; reflexivity).
  rewrite (Z.min_comm eb ea). f_equal. lia.
Qed.

Lemma float_add_comm (a b : float) : (a + b)%float = (b + a)%float.
Proof. apply Prim2SF_inj. rewrite !add_spec. apply SFadd_comm. Qed.

(** [distance_to] and [is_colliding] do not depend on which ball is [self]:
    the binary64 results are the same, bit for bit. *)
Theorem is_colliding_symmetric (a b : Ball.t) :
  Ball.distance_to a b = Ball.distance_to b a
  /\ Ball.is_colliding a b = Ball.is_colliding b a.
Proof.
  assert (E : Ball.distance_to a b = Ball.distance_to b a).
  { unfold Ball.distance_to.
    rewrite (float_square_diff_swap (Ball.x a)), (float_square_diff_swap (Ball.y a)).
    reflexivity. }
  split; [exact E|]. unfold Ball.is_colliding.
  rewrite E, (float_add_comm (Ball.radius a)). reflexivity.
Qed.

(** * Collisions *)

Section Collisions.
Import GameLogic.

Lemma enumerate_cons {A} (start : nat) (a : A) (l : list A) :
  enumerate start (a :: l) = (start, a) :: enumerate (S start) l.
Proof. reflexivity. Qed.

Lemma collide_inner (i : nat) (ball1 : ref) (rest : list ref) :
  forall (j : nat) (s : ref -> Ball.t) (checked : gset (nat * nat)),
    (i < j)%nat -> pairs_before i j checked ->
    exists checked',
      foldl (collide_pair i ball1) (s, checked) (enumerate j rest)
      = (foldl (collide_plain ball1) s rest, checked')
      /\ pairs_before i (j + length rest) checked'.
Proof.
  induction rest as [|ball2 rest IH]; intros j s checked Hij Hinv.
  - exists checked. split; [reflexivity|]. rewrite Nat.add_0_r. exact Hinv.
  - rewrite enumerate_cons. cbn [foldl].
    assert (Hfresh : (Nat.min i j, Nat.max i j) ∉ checked).
    { intros Hin. apply Hinv in Hin. lia. }
    assert (Hnext : pairs_before i (S j) (checked ∪ {[ (Nat.min i j, Nat.max i j) ]})).
    { intros a b Hab. apply elem_of_union in Hab as [Hab|Hab].
      - apply Hinv in Hab. lia.
      - apply elem_of_singleton in Hab. injection Hab as -> ->. lia. }
    assert (Estep : collide_pair i ball1 (s, checked) (j, ball2)
                    = (collide_plain ball1 s ball2,
                       checked ∪ {[ (Nat.min i j, Nat.max i j) ]})).
    { unfold collide_pair, collide_plain.
      destruct (decide _) as [Hin|_]; [contradiction|].
      destruct (Ball.is_colliding _ _); reflexivity. }
    rewrite Estep.
    destruct (IH (S j) (collide_plain ball1 s ball2) _ ltac:(lia) Hnext)
      as (checked' & E & Hinv').
    exists checked'. split; [exact E|].
    cbn [length]. replace (j + S (length rest))%nat with (S j + length rest)%nat by lia.
    exact Hinv'.
Qed.

Lemma collide_outer (l : list ref) (suffix : list ref) :
  forall (i : nat) (s : ref -> Ball.t) (checked : gset (nat * nat)),
    drop i l = suffix -> pairs_before i 0 checked ->
    fst (foldl (collide_row l) (s, checked) (enumerate i suffix))
    = collide_all suffix s.
Proof.
  induction suffix as [|ball1 rest IH]; intros i s checked Hdrop Hinv.
  - reflexivity.
  - rewrite enumerate_cons. cbn [foldl collide_all].
    assert (Hrest : drop (i + 1) l = rest).
    { rewrite <- drop_drop, Hdrop. reflexivity. }
    assert (Hinv0 : pairs_before i (i + 1) checked).
    { intros a b Hab. apply Hinv in Hab. lia. }
    destruct (collide_inner i ball1 rest (i + 1)%nat s checked ltac:(lia) Hinv0)
      as (checked' & E & Hinv').
    unfold collide_row at 2. rewrite Hrest, E.
    apply IH.
    + replace (S i) with (i + 1)%nat by lia. exact Hrest.
    + intros a b Hab. apply Hinv' in Hab. lia.
Qed.

Lemma handle_collisions_store (g : t) :
  store (_handle_collisions g) = collide_all (balls g) (store g).
Proof.
  unfold _handle_collisions. cbn [store set_store].
  apply collide_outer; [reflexivity|].
  intros a b Hab. apply not_elem_of_empty in Hab. contradiction.
Qed.

(** The [checked_pairs] set of [_handle_collisions] never suppresses a
    test: the method runs the plain double loop, every pair of positions
    [i < j] once, in the order of [i], then [j]. *)
Theorem handle_collisions_plain_loop (g : t) :
  store (_handle_collisions g) = collide_all (balls g) (store g)
  /\ balls (_handle_collisions g) = balls g
  /\ inventory (_handle_collisions g) = inventory g.
Proof.
  split; [apply handle_collisions_store|split; reflexivity].
Qed.

End Collisions.

(** * What the phases of a frame leave alone *)

Section Frames.
Import GameLogic.

(** A loop that alters one listed ball at a time keeps every attribute
    that the alteration keeps, and leaves unlisted balls alone. *)
Lemma alter_fold_proj {A} (proj : Ball.t -> A) (f : Ball.t -> Ball.t)
    (l : list ref) :
  (forall b, proj (f b) = proj b) ->
  forall (s : ref -> Ball.t) (k : ref),
    proj (foldl (fun s ball => alter f ball s) s l k) = proj (s k).
Proof.
  intros Hf. induction l as [|a l IH]; intros s k; [reflexivity|].
  cbn [foldl]. rewrite IH.
  destruct (decide (a = k)) as [->|Hne].
  - rewrite fn_lookup_alter. apply Hf.
  - rewrite fn_lookup_alter_ne by assumption. reflexivity.
Qed.

Lemma alter_fold_notin (f : Ball.t -> Ball.t) (l : list ref) :
  forall (s : ref -> Ball.t) (k : ref),
    k ∉ l -> foldl (fun s ball => alter f ball s) s l k = s k.
Proof.
  induction l as [|a l IH]; intros s k Hk; [reflexivity|].
  apply not_elem_of_cons in Hk as [Hne Hk].
  cbn [foldl]. rewrite IH by assumption.
  apply fn_lookup_alter_ne. congruence.
Qed.

Lemma mix_colors_proj {A} (proj : Ball.t -> A) :
  (forall c b, proj (Ball.set_color c b) = proj b) ->
  forall (r1 r2 : ref) (s : ref -> Ball.t) (k : ref),
    proj (_mix_colors r1 r2 s k) = proj (s k).
Proof.
  intros Hp r1 r2 s k. unfold _mix_colors.
  destruct (decide (r2 = k)) as [->|H2].
  - rewrite fn_lookup_alter, Hp.
    destruct (decide (r1 = k)) as [->|H1].
    + rewrite fn_lookup_alter. apply Hp.
    + rewrite fn_lookup_alter_ne by assumption. reflexivity.
  - rewrite fn_lookup_alter_ne by assumption.
    destruct (decide (r1 = k)) as [->|H1].
    + rewrite fn_lookup_alter. apply Hp.
    + rewrite fn_lookup_alter_ne by assumption. reflexivity.
Qed.

Lemma mix_colors_other (r1 r2 : ref) (s : ref -> Ball.t) (k : ref) :
  k <> r1 -> k <> r2 -> _mix_colors r1 r2 s k = s k.
Proof.
  intros H1 H2. unfold _mix_colors.
  rewrite !fn_lookup_alter_ne by congruence. reflexivity.
Qed.

(** An invariant [P] of the stored balls that [_mix_colors] keeps for the
    pairs taken from [l] is kept by the whole collision loop. *)
Lemma collide_all_invariant (P : (ref -> Ball.t) -> Prop) (L : list ref) :
  (forall r1 r2 s, r1 ∈ L -> r2 ∈ L -> P s -> P (_mix_colors r1 r2 s)) ->
  forall (l : list ref) (s : ref -> Ball.t),
    (forall r, r ∈ l -> r ∈ L) -> P s -> P (collide_all l s).
Proof.
  intros Hmix.
  assert (Hinner : forall b rest s, b ∈ L -> (forall r, r ∈ rest -> r ∈ L) ->
                     P s -> P (foldl (collide_plain b) s rest)).
  { intros b rest. induction rest as [|r rest IH]; intros s Hb Hrest Hs; [exact Hs|].
    cbn [foldl]. apply IH; [exact Hb| |].
    - intros r' Hr'. apply Hrest. apply elem_of_cons. auto.
    - unfold collide_plain. destruct (Ball.is_colliding _ _); [|exact Hs].
      apply Hmix; [exact Hb| |exact Hs]. apply Hrest. apply elem_of_cons. auto. }
  induction l as [|b rest IH]; intros s Hl Hs; [exact Hs|].
  cbn [collide_all]. apply IH.
  - intros r Hr. apply Hl. apply elem_of_cons. auto.
  - apply Hinner; [| |exact Hs].
    + apply Hl. apply elem_of_cons. auto.
    + intros r Hr. apply Hl. apply elem_of_cons. auto.
Qed.

(** [_handle_collisions] changes colors only, and only those of active
    balls: position, velocity and radius of every ball stay, balls that are
    not active are untouched, and when no two different active balls
    overlap nothing changes at all. *)
Theorem handle_collisions_changes_colors_only (g : t) :
  (forall k,
     Ball.x (store (_handle_collisions g) k) = Ball.x (store g k)
     /\ Ball.y (store (_handle_collisions g) k) = Ball.y (store g k)
     /\ Ball.radius (store (_handle_collisions g) k) = Ball.radius (store g k)
     /\ Ball.velocity (store (_handle_collisions g) k) = Ball.velocity (store g k))
  /\ (forall k, k ∉ balls g -> store (_handle_collisions g) k = store g k)
  /\ (NoDup (balls g) ->
      (forall r1 r2, r1 ∈ balls g -> r2 ∈ balls g -> r1 <> r2 ->
         Ball.is_colliding (store g r1) (store g r2) = false) ->
      store (_handle_collisions g) = store g).
Proof.
  rewrite (handle_collisions_store g).
  split; [|split].
  - apply (collide_all_invariant
             (fun s => forall k,
                Ball.x (s k) = Ball.x (store g k)
                /\ Ball.y (s k) = Ball.y (store g k)
                /\ Ball.radius (s k) = Ball.radius (store g k)
                /\ Ball.velocity (s k) = Ball.velocity (store g k))
             (balls g)); [|auto|auto].
    intros r1 r2 s _ _ Hs k.
    rewrite (mix_colors_proj Ball.x), (mix_colors_proj Ball.y),
      (mix_colors_proj Ball.radius), (mix_colors_proj Ball.velocity);
      [apply Hs|reflexivity..].
  - intros k Hk.
    apply (collide_all_invariant (fun s => s k = store g k) (balls g));
      [|auto|reflexivity].
    intros r1 r2 s H1 H2 Hs. rewrite mix_colors_other; [exact Hs| |];
      intros ->; contradiction.
  - intros Hnd Hfree. generalize (store g) Hfree. clear Hfree.
    induction Hnd as [|b rest Hb Hnd IH]; intros s Hfree; [reflexivity|].
    cbn [collide_all].
    assert (Einner : foldl (collide_plain b) s rest = s).
    { assert (Hall : forall r, r ∈ rest -> Ball.is_colliding (s b) (s r) = false).
      { intros r Hr. apply Hfree; [apply elem_of_cons; auto|apply elem_of_cons; auto|].
        intros ->. contradiction. }
      clear -Hall. induction rest as [|r rest IH]; [reflexivity|].
      cbn [foldl]. unfold collide_plain at 2.
      rewrite Hall by (apply elem_of_cons; auto).
      apply IH. intros r' Hr'. apply Hall. apply elem_of_cons. auto. }
    rewrite Einner. apply IH.
    intros r1 r2 H1 H2 Hne. apply Hfree; [apply elem_of_cons; auto|apply elem_of_cons; auto|exact Hne].
Qed.

(** Colors of the documented range stay in it under [_mix_colors]. *)
Lemma mix_colors_keeps_range (L : list ref) (r1 r2 : ref) (s : ref -> Ball.t) :
  r1 ∈ L -> r2 ∈ L ->
  (forall r, r ∈ L -> color_ok (Ball.color (s r))) ->
  forall r, r ∈ L -> color_ok (Ball.color (_mix_colors r1 r2 s r)).
Proof.
  intros H1 H2 Hs r Hr.
  destruct (mix_colors_color s r1 r2) as [E1 E2].
  pose proof (mixed_color_range _ _ (Hs r1 H1) (Hs r2 H2)) as Hm.
  assert (Hok : color_ok (mixed_color (Ball.color (s r1)) (Ball.color (s r2)))).
  { destruct (mixed_color _ _) as [[cr cg] cb]. unfold color_ok, channel_ok. lia. }
  destruct (decide (r = r1)) as [->|Hn1]; [rewrite E1; exact Hok|].
  destruct (decide (r = r2)) as [->|Hn2]; [rewrite E2; exact Hok|].
  rewrite mix_colors_other by assumption. apply Hs, Hr.
Qed.

(** The suction loop keeps every attribute that a change of velocity
    keeps. *)
Lemma suction_fold_proj {A} (proj : Ball.t -> A) (range : Z)
    (mouse : float * float) (l : list ref) :
  (forall v b, proj (Ball.set_velocity v b) = proj b) ->
  forall (s : ref -> Ball.t) (inv rem : list ref) (k : ref),
    proj (fst (fst (foldl (suction_step range mouse) (s, inv, rem) l)) k)
    = proj (s k).
Proof.
  intros Hp. induction l as [|a l IH]; intros s inv rem k; [reflexivity|].
  cbn [foldl].
  destruct (suction_step_spec range mouse s inv rem a) as (s1 & E & Ha & Ho).
  rewrite E, IH.
  destruct (decide (k = a)) as [->|Hne]; [|rewrite Ho by assumption; reflexivity].
  rewrite Ha. unfold suction_ball. destruct (Py.fle _ range); [apply Hp|reflexivity].
Qed.

Lemma process_suction_proj {A} (proj : Ball.t -> A) (g : t) :
  (forall v b, proj (Ball.set_velocity v b) = proj b) ->
  forall k, proj (store (_process_suction g) k) = proj (store g k).
Proof.
  intros Hp k. unfold _process_suction.
  pose proof (suction_fold_proj proj (suction_range g) (suction_mouse_pos g)
                (balls g) Hp (store g) (inventory g) [] k) as E.
  destruct (foldl _ _ _) as [[s inv] rem]. exact E.
Qed.

(** Attributes kept by [Ball.update], by a change of color and by a change
    of velocity are kept by a whole [update]. *)
Lemma update_proj {A} (proj : Ball.t -> A) (g : t) :
  (forall w h f b, proj (Ball.update w h f b) = proj b) ->
  (forall c b, proj (Ball.set_color c b) = proj b) ->
  (forall v b, proj (Ball.set_velocity v b) = proj b) ->
  forall k, proj (store (update g) k) = proj (store g k).
Proof.
  intros Hu Hc Hv k.
  destruct (update_lists g) as (_ & _ & ->).
  assert (Ecol : proj (store (collided g) k) = proj (store g k)).
  { unfold collided.
    rewrite (handle_collisions_store (advance_all g)).
    rewrite (collide_all_invariant
               (fun s => proj (s k) = proj (store (advance_all g) k))
               (balls (advance_all g))); [| |auto|reflexivity].
    - unfold advance_all. cbn [store set_store]. apply alter_fold_proj. apply Hu.
    - intros r1 r2 s _ _ Hs. rewrite mix_colors_proj by exact Hc. exact Hs. }
  unfold before_check. destruct (suction_active (collided g)); [|exact Ecol].
  rewrite process_suction_proj by exact Hv. exact Ecol.
Qed.

Lemma ball_update_radius (w h : Z) (f : float) (b : Ball.t) :
  Ball.radius (Ball.update w h f b) = Ball.radius b.
Proof. rewrite update_unfold. reflexivity. Qed.

Lemma ball_update_color (w h : Z) (f : float) (b : Ball.t) :
  Ball.color (Ball.update w h f b) = Ball.color b.
Proof. rewrite update_unfold. reflexivity. Qed.

End Frames.

(** * Properties of whole operations *)

Section Operations.
Context `{PyLib}.
Import GameLogic.

Lemma reachable_radius (g : t) :
  reachable g ->
  forall r, r ∈ balls g ++ inventory g ->
    Ball.radius (store g r) = Ball.default_radius.
Proof.
  intros Hreach.
  induction Hreach as [w h|px py col g rs Hr IH|g Hr IH|mx my g Hr IH|g Hr IH
                      |mx my vel g rs Hr IH].
  - intros r Hr. inversion Hr.
  - destruct (add_ball_spec px py col g rs) as (_ & Eb & Ei & _ & Ho & _).
    destruct (reachable_owned g Hr) as [_ Hlt].
    intros r. rewrite Eb, Ei, <- app_assoc, elem_of_app, elem_of_app.
    intros [Hin|[Hin|Hin]].
    + rewrite Ho; [apply IH; apply elem_of_app; auto|].
      assert (r < next_ref g)%nat by (apply Hlt; apply elem_of_app; auto). lia.
    + apply list_elem_of_singleton in Hin as ->.
      unfold add_ball.
      destruct (match px with Some v => _ | None => _ end) as [px' rs1].
      destruct (match py with Some v => _ | None => _ end) as [py' rs2].
      unfold Ball.init.
      destruct (match col with Some c => _ | None => _ end) as [c rs3].
      destruct (random_velocity 1 3 rs3) as [v rs4].
      cbn [fst snd store]. rewrite fn_lookup_insert. reflexivity.
    + rewrite Ho; [apply IH; apply elem_of_app; auto|].
      assert (r < next_ref g)%nat by (apply Hlt; apply elem_of_app; auto). lia.
  - intros r Hin.
    rewrite (update_proj Ball.radius);
      [|apply ball_update_radius|reflexivity|reflexivity].
    apply IH. destruct (update_lists g) as (Eb & Ei & _).
    rewrite <- (before_check_perm g).
    rewrite Eb, Ei in Hin. apply elem_of_app in Hin as [Hin|Hin]; apply elem_of_app.
    + apply list_elem_of_filter in Hin. tauto.
    + auto.
  - exact IH.
  - exact IH.
  - destruct (inventory g) as [|b inv _] eqn:E using rev_ind.
    + rewrite eject_ball_empty by assumption. cbn [fst snd]. rewrite E. exact IH.
    + destruct (eject_ball_snoc mx my vel g rs inv b E)
        as (_ & Eb & Ei & _ & _ & _ & _ & Erad & _ & Ho & _).
      intros r. rewrite Eb, Ei.
      intros Hin.
      assert (Hold : r ∈ balls g ++ inv ++ [b]).
      { rewrite !elem_of_app in *. tauto. }
      destruct (decide (r = b)) as [->|Hne].
      * rewrite Erad. apply IH. exact Hold.
      * rewrite Ho by assumption. apply IH. exact Hold.
Qed.

(** [update] never changes the radius of a ball; in every reachable state
    each ball of [balls] and [inventory] has the default radius 15, the one
    [add_ball] creates it with. *)
Theorem radius_is_fixed (g : t) :
  reachable g ->
  (forall k, Ball.radius (store (update g) k) = Ball.radius (store g k))
  /\ forall r, r ∈ balls g ++ inventory g ->
       Ball.radius (store g r) = Ball.default_radius.
Proof.
  intros Hreach. split.
  - intros k. apply (update_proj Ball.radius); [apply ball_update_radius|reflexivity..].
  - apply reachable_radius, Hreach.
Qed.

Lemma update_colors_ok (g : t) :
  (forall r, r ∈ balls g ++ inventory g -> color_ok (Ball.color (store g r))) ->
  forall r, r ∈ balls g ++ inventory g ->
    color_ok (Ball.color (store (update g) r)).
Proof.
  intros Hok r Hr.
  destruct (update_lists g) as (_ & _ & ->).
  assert (Hcol : forall k, k ∈ balls g ++ inventory g ->
                   color_ok (Ball.color (store (collided g) k))).
  { unfold collided.
    rewrite (handle_collisions_store (advance_all g)).
    apply (collide_all_invariant
             (fun s => forall k, k ∈ balls g ++ inventory g ->
                         color_ok (Ball.color (s k)))
             (balls g ++ inventory g)).
    - intros r1 r2 s H1 H2 Hs. apply mix_colors_keeps_range; assumption.
    - intros k Hk. apply elem_of_app. left. exact Hk.
    - intros k Hk. unfold advance_all. cbn [store set_store].
      rewrite (alter_fold_proj Ball.color) by apply ball_update_color.
      apply Hok, Hk. }
  unfold before_check. destruct (suction_active (collided g)); [|apply Hcol, Hr].
  rewrite (process_suction_proj Ball.color) by reflexivity. apply Hcol, Hr.
Qed.

(** If the colors of all balls of [balls] and [inventory] have their
    channels in 0..255, they still have after [update]. *)
Theorem update_keeps_colors_in_range (g : t) :
  (forall r, r ∈ balls g ++ inventory g -> color_ok (Ball.color (store g r))) ->
  forall r, r ∈ balls g ++ inventory g ->
    color_ok (Ball.color (store (update g) r)).
Proof. apply update_colors_ok. Qed.

(** [_process_suction] changes velocities only: position, radius and color
    of every ball stay; a ball that is not active, or is farther from the
    focus than the range, is left as it is. *)
Theorem process_suction_changes_velocities_only (g : t) :
  (forall k,
     Ball.x (store (_process_suction g) k) = Ball.x (store g k)
     /\ Ball.y (store (_process_suction g) k) = Ball.y (store g k)
     /\ Ball.radius (store (_process_suction g) k) = Ball.radius (store g k)
     /\ Ball.color (store (_process_suction g) k) = Ball.color (store g k))
  /\ (forall k, k ∉ balls g -> store (_process_suction g) k = store g k)
  /\ (NoDup (balls g) ->
      forall k, k ∈ balls g ->
        Py.fle (suction_distance (suction_mouse_pos g) (store g k))
          (suction_range g) = false ->
        store (_process_suction g) k = store g k).
Proof.
  destruct (process_suction_spec g) as (_ & _ & _ & Hnot & Hin).
  split; [|split; [exact Hnot|]].
  - intros k.
    rewrite (process_suction_proj Ball.x), (process_suction_proj Ball.y),
      (process_suction_proj Ball.radius), (process_suction_proj Ball.color);
      [auto|reflexivity..].
  - intros Hnd k Hk Hfar. rewrite (Hin Hnd k Hk).
    unfold suction_ball. rewrite Hfar. reflexivity.
Qed.

(** [_process_suction] moves exactly the active balls whose distance to the
    focus is at most the range and below [radius + 10]: they leave [balls],
    whose other elements keep their order, and are appended to [inventory]
    in the order they had in [balls]. *)
Theorem process_suction_transfers_in_order (g : t) :
  balls (_process_suction g)
  = filter (fun r => ~ (swallowed (suction_range g) (suction_mouse_pos g)
                          (store g r) = true)) (balls g)
  /\ inventory (_process_suction g)
     = inventory g
       ++ filter (fun r => swallowed (suction_range g) (suction_mouse_pos g)
                             (store g r) = true) (balls g)
  /\ forall b,
       swallowed (suction_range g) (suction_mouse_pos g) b
       = Py.fle (suction_distance (suction_mouse_pos g) b) (suction_range g)
         && (suction_distance (suction_mouse_pos g) b <? Ball.radius b + 10)%float.
Proof.
  destruct (process_suction_spec g) as (Eb & Ei & _).
  split; [exact Eb|]. split; [exact Ei|]. reflexivity.
Qed.

(** While the suction is inactive, [update] swallows nothing: the inventory
    is unchanged and the only balls that leave [balls] are those in the
    delete zone.  This is the case after [stop_suction]. *)
Theorem update_without_suction (g : t) :
  suction_active g = false ->
  inventory (update g) = inventory g
  /\ before_check g = collided g
  /\ balls (update g)
     = filter (fun r => ~ (ball_in_delete_zone (collided g) r = true)) (balls g).
Proof.
  intros Hoff.
  assert (E : before_check g = collided g).
  { unfold before_check.
    change (suction_active (collided g)) with (suction_active g).
    rewrite Hoff. reflexivity. }
  destruct (update_lists g) as (Eb & Ei & _).
  rewrite Eb, Ei, E. repeat split.
Qed.

(** After [update] no active ball has its center in the delete zone, and a
    second delete-zone check would remove nothing. *)
Theorem update_clears_delete_zone (g : t) :
  (forall r, r ∈ balls (update g) ->
     is_in_delete_zone (update g) (Ball.x (store (update g) r))
       (Ball.y (store (update g) r)) = false)
  /\ balls (_check_delete_zone (update g)) = balls (update g).
Proof.
  assert (Hclear : forall r, r ∈ balls (update g) ->
            ball_in_delete_zone (update g) r = false).
  { intros r Hr. destruct (update_lists g) as (Eb & _).
    rewrite Eb in Hr. apply list_elem_of_filter in Hr as [Hz _].
    change (ball_in_delete_zone (update g) r)
      with (ball_in_delete_zone (before_check g) r).
    destruct (ball_in_delete_zone (before_check g) r); [contradiction|reflexivity]. }
  split; [exact Hclear|].
  rewrite check_delete_zone_balls.
  induction (balls (update g)) as [|a l IH]; [reflexivity|].
  rewrite filter_cons_True.
  - f_equal. apply IH. intros r Hr. apply Hclear. apply elem_of_cons. auto.
  - rewrite Hclear by (apply elem_of_cons; auto). discriminate.
Qed.

(** [get_ball_at_position] returns [None] exactly when no active ball
    contains the point; otherwise it returns the first active ball, in the
    order of [balls], that contains it. *)
Theorem get_ball_at_position_first_match (g : t) (px py : float) :
  (get_ball_at_position g px py = None <->
   forall r, r ∈ balls g -> Ball.is_point_inside (store g r) px py = false)
  /\ forall r,
       get_ball_at_position g px py = Some r ->
       Ball.is_point_inside (store g r) px py = true
       /\ exists before after,
            balls g = before ++ r :: after
            /\ forall r', r' ∈ before ->
                 Ball.is_point_inside (store g r') px py = false.
Proof.
  unfold get_ball_at_position. split.
  - rewrite head_None. split.
    + intros E r Hr.
      destruct (Ball.is_point_inside (store g r) px py) eqn:Ein; [|reflexivity].
      exfalso. apply (filter_nil_not_elem_of _ _ r E); assumption.
    + intros Hall. induction (balls g) as [|a l IH]; [reflexivity|].
      rewrite filter_cons_False.
      * apply IH. intros r Hr. apply Hall. apply elem_of_cons. auto.
      * rewrite Hall by (apply elem_of_cons; auto). discriminate.
  - intros r Hr. split.
    + apply head_Some_elem_of in Hr. apply list_elem_of_filter in Hr. tauto.
    + destruct (head_filter_Some _ _ _ Hr) as (l1 & l2 & E & Hall).
      exists l1, l2. split; [exact E|].
      intros r' Hr'. rewrite Forall_forall in Hall. specialize (Hall r' Hr').
      destruct (Ball.is_point_inside (store g r') px py); [contradiction|reflexivity].
Qed.

(** Ejecting once per ball of a tail [out] of the inventory moves those
    balls to the end of [balls] in reverse order, last in first out, and
    leaves the rest of the inventory. *)
Theorem eject_each_reverses (clicks : list (float * float * option (float * float))) :
  forall (g : t) (rs : rng) (keep out : list ref),
    inventory g = keep ++ out -> length clicks = length out ->
    balls (fst (eject_each clicks g rs)) = balls g ++ reverse out
    /\ inventory (fst (eject_each clicks g rs)) = keep.
Proof.
  induction clicks as [|[[mx my] vel] clicks IH]; intros g rs keep out Einv Hlen.
  - destruct out; [|discriminate]. cbn. rewrite app_nil_r in *. auto.
  - destruct out as [|b out _] using rev_ind; [discriminate|].
    rewrite length_app in Hlen. cbn in Hlen.
    rewrite app_assoc in Einv.
    destruct (eject_ball_snoc mx my vel g rs (keep ++ out) b Einv)
      as (_ & Eb & Ei & _).
    cbn [eject_each].
    destruct (IH (snd (fst (eject_ball mx my vel g rs)))
                (snd (eject_ball mx my vel g rs)) keep out Ei ltac:(lia))
      as [Eb' Ei'].
    rewrite Eb', Ei', Eb, reverse_snoc, <- app_assoc. auto.
Qed.

End Operations.

(** * How mixing relates to its inputs *)

Lemma forall2zf_spec (n : nat) (w : float) (g h : Z -> float)
    (Q : float -> Z -> float -> Z -> float -> bool) (a b : Z) :
  forall2zf n w g h Q = true ->
  0 <= a < Z.of_nat n -> 0 <= b < Z.of_nat n -> Q w a (g a) b (h b) = true.
Proof.
  unfold forall2zf. cbv zeta. intros T Ha Hb.
  pose proof (proj1 (List.forallb_forall _ _) T a (zrange_complete n a Ha)) as T1.
  cbv beta in T1.
  apply (proj1 (List.forallb_forall _ _) T1 (b, h b)).
  apply (List.in_map (fun b => (b, h b))), zrange_complete, Hb.
Qed.

Lemma between_table :
  forall2zf 256 (Py.Z2F 255) weigh6 weigh4 between_agrees = true.
Proof. vm_compute. reflexivity. Qed.

Lemma mix_channel_bounds (c1 c2 : Z) :
  channel_ok c1 -> channel_ok c2 ->
  (c1 = 255 /\ c2 = 255 -> GameLogic.mix_channel c1 c2 = 0)
  /\ (~ (c1 = 255 /\ c2 = 255) ->
      Z.min c1 c2 <= GameLogic.mix_channel c1 c2 <= Z.max c1 c2).
Proof.
  unfold channel_ok. intros H1 H2.
  assert (T : between_agrees (Py.Z2F 255) c1 (weigh6 c1) c2 (weigh4 c2) = true).
  { apply (forall2zf_spec 256 (Py.Z2F 255) weigh6 weigh4 between_agrees c1 c2
             between_table); lia. }
  unfold between_agrees in T. cbv zeta in T.
  change (Py.int (Py.float_rem (weigh6 c1 + weigh4 c2) (Py.Z2F 255)))
    with (GameLogic.mix_channel c1 c2) in T.
  destruct ((c1 =? 255) && (c2 =? 255)) eqn:E.
  - apply andb_true_iff in E as [E1 E2]. apply Z.eqb_eq in T. lia.
  - apply andb_false_iff in E. apply andb_true_iff in T as [T1 T2].
    split; lia.
Qed.

(** For channels in 0..255 the pre-darken channel lies between the two
    inputs, so a channel mixed with itself is unchanged; the one exception
    is 255 with 255, which the [% 255] wraps to 0. *)
Theorem mix_channel_between (c1 c2 : Z) :
  channel_ok c1 -> channel_ok c2 ->
  (c1 = 255 /\ c2 = 255 -> GameLogic.mix_channel c1 c2 = 0)
  /\ (~ (c1 = 255 /\ c2 = 255) ->
      Z.min c1 c2 <= GameLogic.mix_channel c1 c2 <= Z.max c1 c2)
  /\ (c1 = c2 -> c1 < 255 -> GameLogic.mix_channel c1 c2 = c1).
Proof.
  intros H1 H2. destruct (mix_channel_bounds c1 c2 H1 H2) as [Hw Hb].
  split; [exact Hw|]. split; [exact Hb|].
  intros -> Hlt. assert (Hn : ~ (c2 = 255 /\ c2 = 255)) by lia.
  specialize (Hb Hn). lia.
Qed.

(** [mix_channel_between] at the channels 200 and 100. *)
Lemma mix_channel_between_witness :
  channel_ok 200 /\ channel_ok 100
  /\ Z.min 200 100 <= GameLogic.mix_channel 200 100 <= Z.max 200 100.
Proof.
  assert (H1 : channel_ok 200) by (unfold channel_ok; lia).
  assert (H2 : channel_ok 100) by (unfold channel_ok; lia).
  split; [exact H1|]. split; [exact H2|].
  apply (proj1 (proj2 (mix_channel_between 200 100 H1 H2))). lia.
Defined.

(** Mixing never brightens: for colors with channels in 0..255, no channel
    of the color [_mix_colors] writes exceeds the larger of the two input
    channels. *)
Theorem mixing_never_brightens (r1 g1 b1 r2 g2 b2 : Z) :
  color_ok (r1, g1, b1) -> color_ok (r2, g2, b2) ->
  let '(r, g, b) := GameLogic.mixed_color (r1, g1, b1) (r2, g2, b2) in
  r <= Z.max r1 r2 /\ g <= Z.max g1 g2 /\ b <= Z.max b1 b2.
Proof.
  intros (Hr1 & Hg1 & Hb1) (Hr2 & Hg2 & Hb2).
  unfold GameLogic.mixed_color.
  assert (Hp : color_ok (GameLogic.premix (r1, g1, b1) (r2, g2, b2)))
    by (apply premix_ok; unfold color_ok; auto).
  rewrite darken_spec by exact Hp.
  unfold GameLogic.premix in *.
  pose proof (mix_channel_range r1 r2 Hr1 Hr2) as Rr.
  pose proof (mix_channel_range g1 g2 Hg1 Hg2) as Rg.
  pose proof (mix_channel_range b1 b2 Hb1 Hb2) as Rb.
  assert (Br : GameLogic.mix_channel r1 r2 <= Z.max r1 r2).
  { destruct (mix_channel_bounds r1 r2 Hr1 Hr2) as (Hw & Hbt).
    destruct (decide (r1 = 255 /\ r2 = 255)) as [Hboth|Hnot].
    - rewrite (Hw Hboth). unfold channel_ok in *. lia.
    - apply Hbt, Hnot. }
  assert (Bg : GameLogic.mix_channel g1 g2 <= Z.max g1 g2).
  { destruct (mix_channel_bounds g1 g2 Hg1 Hg2) as (Hw & Hbt).
    destruct (decide (g1 = 255 /\ g2 = 255)) as [Hboth|Hnot].
    - rewrite (Hw Hboth). unfold channel_ok in *. lia.
    - apply Hbt, Hnot. }
  assert (Bb : GameLogic.mix_channel b1 b2 <= Z.max b1 b2).
  { destruct (mix_channel_bounds b1 b2 Hb1 Hb2) as (Hw & Hbt).
    destruct (decide (b1 = 255 /\ b2 = 255)) as [Hboth|Hnot].
    - rewrite (Hw Hboth). unfold channel_ok in *. lia.
    - apply Hbt, Hnot. }
  generalize dependent (GameLogic.mix_channel r1 r2).
  generalize dependent (GameLogic.mix_channel g1 g2).
  generalize dependent (GameLogic.mix_channel b1 b2).
  intros mb Rb Bb mg Rg Bg mr _ Rr Br.
  unfold ColorSpec.darken, ColorSpec.mean_exceeds_200, ColorSpec.dark.
  destruct (200 * 3 <? mr + mg + mb) eqn:Ebright; [|lia].
  apply Z.ltb_lt in Ebright.
  destruct (_ && _); [lia|]. destruct (_ && _); lia.
Qed.

(** [mixing_never_brightens] at white and a light gray. *)
Lemma mixing_never_brightens_witness :
  let '(r, g, b) := GameLogic.mixed_color (255, 255, 255) (230, 230, 230) in
  r <= Z.max 255 230 /\ g <= Z.max 255 230 /\ b <= Z.max 255 230.
Proof.
  apply (mixing_never_brightens 255 255 255 230 230 230);
    apply color_ok_intro; reflexivity.
Defined.

(** * Colors as the canvas receives them *)

Lemma format_table : forall1b 256 format_agrees = true.
Proof. vm_compute. reflexivity. Qed.

Lemma digit_table : forall1b 16 digit_round_trip = true.
Proof. vm_compute. reflexivity. Qed.

Lemma format_02x_channel (c : Z) :
  channel_ok c -> PyFormat.format_02x c = two_digits c.
Proof.
  intros Hc. apply String.eqb_eq.
  apply (forall1b_spec 256 format_agrees c format_table).
  unfold channel_ok in Hc. lia.
Qed.

Lemma hex_digit_value (d : Z) :
  0 <= d < 16 -> hex_value (PyFormat.hex_digit d) = d.
Proof.
  intros Hd. apply Z.eqb_eq.
  apply (forall1b_spec 16 digit_round_trip d digit_table). lia.
Qed.

Lemma two_digits_inj (c c' : Z) :
  channel_ok c -> channel_ok c' -> two_digits c = two_digits c' -> c = c'.
Proof.
  unfold channel_ok, two_digits. intros Hc Hc' E.
  injection E as Eh El.
  apply (f_equal hex_value) in Eh, El.
  pose proof (Z.div_mod c 16 ltac:(lia)).
  pose proof (Z.div_mod c' 16 ltac:(lia)).
  pose proof (Z.mod_pos_bound c 16 ltac:(lia)).
  pose proof (Z.mod_pos_bound c' 16 ltac:(lia)).
  assert (0 <= c / 16 < 16) by (split; [apply Z.div_pos; lia | apply Z.div_lt_upper_bound; lia]).
  assert (0 <= c' / 16 < 16) by (split; [apply Z.div_pos; lia | apply Z.div_lt_upper_bound; lia]).
  rewrite !hex_digit_value in Eh, El by assumption. lia.
Qed.

Lemma rgb_to_hex_two_digits (r g b : Z) :
  color_ok (r, g, b) ->
  GameWindow.rgb_to_hex (r, g, b)
  = String.String (Ascii.ascii_of_nat 35)
      (String.append (two_digits r) (String.append (two_digits g) (two_digits b))).
Proof.
  intros (Hr & Hg & Hb). unfold GameWindow.rgb_to_hex.
  rewrite !format_02x_channel by assumption. reflexivity.
Qed.

(** For a color with channels in 0..255, [rgb_to_hex] gives [#] followed by
    two lowercase hexadecimal digits per channel, seven characters in all,
    and distinct colors give distinct strings. *)
Theorem rgb_to_hex_channels (r g b : Z) :
  color_ok (r, g, b) ->
  GameWindow.rgb_to_hex (r, g, b)
  = String.String (Ascii.ascii_of_nat 35)
      (String.append (two_digits r) (String.append (two_digits g) (two_digits b)))
  /\ String.length (GameWindow.rgb_to_hex (r, g, b)) = 7%nat
  /\ (forall r' g' b', color_ok (r', g', b') ->
        GameWindow.rgb_to_hex (r, g, b) = GameWindow.rgb_to_hex (r', g', b') ->
        (r, g, b) = (r', g', b')).
Proof.
  intros (Hr & Hg & Hb). unfold GameWindow.rgb_to_hex.
  rewrite !format_02x_channel by assumption.
  split; [reflexivity|]. split; [reflexivity|].
  intros r' g' b' (Hr' & Hg' & Hb').
  rewrite !format_02x_channel by assumption.
  intros E. unfold two_digits in E. cbn [String.append] in E.
  injection E as E1 E2 E3 E4 E5 E6.
  assert (Er : two_digits r = two_digits r') by (unfold two_digits; congruence).
  assert (Eg : two_digits g = two_digits g') by (unfold two_digits; congruence).
  assert (Eb : two_digits b = two_digits b') by (unfold two_digits; congruence).
  rewrite (two_digits_inj r r' Hr Hr' Er), (two_digits_inj g g' Hg Hg' Eg),
    (two_digits_inj b b' Hb Hb' Eb).
  reflexivity.
Qed.

(** [rgb_to_hex_channels] at the color (255, 128, 0). *)
Lemma rgb_to_hex_channels_witness :
  color_ok (255, 128, 0)
  /\ String.length (GameWindow.rgb_to_hex (255, 128, 0)) = 7%nat.
Proof.
  assert (H : color_ok (255, 128, 0)) by (apply color_ok_intro; reflexivity).
  split; [exact H|]. exact (proj1 (proj2 (rgb_to_hex_channels 255 128 0 H))).
Defined.

(** * The window *)

Section Window.
Context `{PyLib}.
Import GameLogic.

Lemma update_suction (g : t) :
  suction_active (update g) = suction_active g
  /\ suction_mouse_pos (update g) = suction_mouse_pos g.
Proof.
  rewrite update_phases.
  change (suction_active (_check_delete_zone (before_check g)))
    with (suction_active (before_check g)).
  change (suction_mouse_pos (_check_delete_zone (before_check g)))
    with (suction_mouse_pos (before_check g)).
  unfold before_check. destruct (suction_active (collided g)) eqn:E.
  - destruct (process_suction_frame (collided g)) as (_&_&_&_&_&_&_&-> & ->).
    split; reflexivity.
  - split; reflexivity.
Qed.

Lemma add_ball_suction px py col (g : t) (rs : rng) :
  suction_active (snd (fst (add_ball px py col g rs))) = suction_active g
  /\ suction_mouse_pos (snd (fst (add_ball px py col g rs))) = suction_mouse_pos g.
Proof.
  unfold add_ball.
  destruct (match px with Some v => _ | None => _ end) as [px' rs1].
  destruct (match py with Some v => _ | None => _ end) as [py' rs2].
  destruct (Ball.init _ _ _ _ _ _) as [b rs3].
  split; reflexivity.
Qed.

Lemma eject_ball_suction mx my vel (g : t) (rs : rng) :
  suction_active (snd (fst (eject_ball mx my vel g rs))) = suction_active g
  /\ suction_mouse_pos (snd (fst (eject_ball mx my vel g rs))) = suction_mouse_pos g.
Proof.
  unfold eject_ball. destruct (pop (inventory g)) as [[inv b]|]; [|split; reflexivity].
  destruct (match vel with Some v => _ | None => _ end) as [v rs1].
  split; reflexivity.
Qed.

Lemma total_balls_update (g : t) : (total_balls (update g) <= total_balls g)%nat.
Proof.
  unfold total_balls.
  destruct (update_lists g) as (-> & -> & _).
  destruct (before_check_lists g) as (-> & ->).
  rewrite length_app.
  pose proof (length_filter_complement (transferred g) (balls g)).
  pose proof (length_filter
                (fun r => ~ (ball_in_delete_zone (before_check g) r = true))
                (filter (fun r => ~ transferred g r) (balls g))).
  lia.
Qed.

Lemma total_balls_add_ball px py col (g : t) (rs : rng) :
  total_balls (snd (fst (add_ball px py col g rs))) = S (total_balls g).
Proof.
  unfold total_balls.
  destruct (add_ball_spec px py col g rs) as (_ & -> & -> & _).
  rewrite length_app. cbn. lia.
Qed.

Lemma total_balls_eject_ball mx my vel (g : t) (rs : rng) :
  total_balls (snd (fst (eject_ball mx my vel g rs))) = total_balls g.
Proof.
  unfold total_balls.
  destruct (inventory g) as [|b inv _] eqn:E using rev_ind.
  - rewrite eject_ball_empty by assumption. cbn [fst snd]. rewrite E. reflexivity.
  - destruct (eject_ball_snoc mx my vel g rs inv b E) as (_ & -> & -> & _).
    rewrite !length_app. cbn. lia.
Qed.

Lemma handle_follows (e : GameWindow.event) (w : GameWindow.t) (rs : rng) :
  suction_follows_mouse w -> suction_follows_mouse (fst (GameWindow.handle e w rs)).
Proof.
  unfold suction_follows_mouse. intros [Ha Hp].
  destruct e as [ex ey|ex ey|ex ey|ex ey| |]; cbn [GameWindow.handle fst].
  - split; reflexivity.
  - split; [reflexivity|discriminate].
  - unfold GameWindow.on_mouse_move.
    cbn [GameWindow.game GameWindow.mouse_pressed GameWindow.mouse_x GameWindow.mouse_y].
    destruct (GameWindow.mouse_pressed w) eqn:Ep.
    + split; reflexivity.
    + split; [exact Ha|discriminate].
  - unfold GameWindow.on_right_click.
    cbn [fst GameWindow.game GameWindow.mouse_pressed GameWindow.mouse_x GameWindow.mouse_y].
    destruct (eject_ball_suction (Py.Z2F ex) (Py.Z2F ey) None (GameWindow.game w) rs)
      as [-> ->].
    split; assumption.
  - unfold GameWindow.on_space_press.
    cbn [fst GameWindow.game GameWindow.mouse_pressed GameWindow.mouse_x GameWindow.mouse_y].
    destruct (add_ball_suction (Some (Py.Z2F (GameWindow.mouse_x w)))
                (Some (Py.Z2F (GameWindow.mouse_y w))) None (GameWindow.game w) rs)
      as [-> ->].
    split; assumption.
  - unfold GameWindow.update.
    cbn [GameWindow.game GameWindow.mouse_pressed GameWindow.mouse_x GameWindow.mouse_y].
    destruct (update_suction (GameWindow.game w)) as [-> ->].
    split; assumption.
Qed.

Lemma run_invariant (P : GameWindow.t -> Prop) :
  (forall e w rs, P w -> P (fst (GameWindow.handle e w rs))) ->
  forall events w rs, P w -> P (fst (GameWindow.run events w rs)).
Proof.
  intros Hstep events. induction events as [|e events IH]; intros w rs Hw.
  - exact Hw.
  - cbn [GameWindow.run]. apply IH, Hstep, Hw.
Qed.

Lemma starting_balls_invariant (P : t -> Prop) :
  (forall g rs, P g -> P (snd (fst (add_ball None None None g rs)))) ->
  forall n g rs, P g -> P (fst (GameWindow.add_starting_balls n g rs)).
Proof.
  intros Hstep n. induction n as [|n IH]; intros g rs Hg.
  - exact Hg.
  - cbn [GameWindow.add_starting_balls]. apply IH, Hstep, Hg.
Qed.

Lemma starting_balls_total (n : nat) :
  forall g rs,
    total_balls (fst (GameWindow.add_starting_balls n g rs))
    = (n + total_balls g)%nat.
Proof.
  induction n as [|n IH]; intros g rs; [reflexivity|].
  cbn [GameWindow.add_starting_balls]. rewrite IH, total_balls_add_ball. lia.
Qed.

Lemma handle_reachable (e : GameWindow.event) (w : GameWindow.t) (rs : rng) :
  reachable (GameWindow.game w) ->
  reachable (GameWindow.game (fst (GameWindow.handle e w rs))).
Proof.
  intros Hr.
  destruct e as [ex ey|ex ey|ex ey|ex ey| |]; cbn [GameWindow.handle fst].
  - apply reach_start_suction, Hr.
  - apply reach_stop_suction, Hr.
  - unfold GameWindow.on_mouse_move. cbn [GameWindow.game].
    destruct (GameWindow.mouse_pressed w); [apply reach_start_suction|]; exact Hr.
  - apply reach_eject_ball, Hr.
  - apply reach_add_ball, Hr.
  - apply reach_update, Hr.
Qed.

Lemma init_reachable (rs : rng) :
  reachable (GameWindow.game (fst (GameWindow.init rs))).
Proof.
  unfold GameWindow.init. cbn [fst GameWindow.update GameWindow.game].
  apply reach_update.
  apply (starting_balls_invariant reachable).
  - intros g rs' Hg. apply reach_add_ball, Hg.
  - apply reach_init.
Qed.

(** In every state of a session the suction is active exactly while the
    left button is held, and while it is held its focus is the last mouse
    position the window has seen. *)
Theorem window_suction_follows_mouse (events : list GameWindow.event) (rs : rng) :
  suction_follows_mouse (GameWindow.session events rs).
Proof.
  unfold GameWindow.session.
  apply (run_invariant suction_follows_mouse).
  - intros e w rs'. apply handle_follows.
  - unfold GameWindow.init, suction_follows_mouse.
    cbn [fst GameWindow.update GameWindow.game GameWindow.mouse_pressed].
    split; [|discriminate].
    rewrite (proj1 (update_suction _)).
    apply (starting_balls_invariant (fun g => suction_active g = false)).
    + intros g rs' Hg. rewrite (proj1 (add_ball_suction None None None g rs')). exact Hg.
    + reflexivity.
Qed.

(** The game of a session is always in a state reachable through the
    public methods of [GameLogic], no ball is listed twice, and the number
    of balls on screen and in the inventory is at most the ten starting
    balls plus one per press of the space bar. *)
Theorem window_ball_budget (events : list GameWindow.event) (rs : rng) :
  reachable (GameWindow.game (GameWindow.session events rs))
  /\ NoDup (balls (GameWindow.game (GameWindow.session events rs))
            ++ inventory (GameWindow.game (GameWindow.session events rs)))
  /\ (total_balls (GameWindow.game (GameWindow.session events rs))
      <= GameWindow.STARTING_BALLS
         + length (List.filter GameWindow.is_space events))%nat.
Proof.
  assert (Hreach : reachable (GameWindow.game (GameWindow.session events rs))).
  { unfold GameWindow.session.
    apply (run_invariant (fun w => reachable (GameWindow.game w))).
    - intros e w rs'. apply handle_reachable.
    - apply init_reachable. }
  split; [exact Hreach|]. split; [apply (reachable_owned _ Hreach)|].
  clear Hreach.
  unfold GameWindow.session.
  assert (Hinit : (total_balls (GameWindow.game (fst (GameWindow.init rs)))
                   <= GameWindow.STARTING_BALLS)%nat).
  { unfold GameWindow.init. cbn [fst GameWindow.update GameWindow.game].
    etransitivity; [apply total_balls_update|].
    rewrite starting_balls_total. unfold total_balls, init.
    cbn [balls inventory length]. lia. }
  revert Hinit. generalize (fst (GameWindow.init rs)) (snd (GameWindow.init rs)).
  generalize GameWindow.STARTING_BALLS.
  induction events as [|e events IH]; intros n w rs' Hw.
  - cbn [GameWindow.run fst List.filter length]. lia.
  - cbn [GameWindow.run List.filter].
    assert (Hstep : (total_balls (GameWindow.game (fst (GameWindow.handle e w rs')))
                     <= (if GameWindow.is_space e then S n else n))%nat).
    { destruct e as [ex ey|ex ey|ex ey|ex ey| |];
        cbn [GameWindow.handle fst GameWindow.is_space].
      - exact Hw.
      - exact Hw.
      - unfold GameWindow.on_mouse_move. cbn [GameWindow.game].
        destruct (GameWindow.mouse_pressed w); exact Hw.
      - unfold GameWindow.on_right_click. cbn [fst GameWindow.game].
        rewrite total_balls_eject_ball. exact Hw.
      - unfold GameWindow.on_space_press. cbn [fst GameWindow.game].
        rewrite total_balls_add_ball. lia.
      - unfold GameWindow.update. cbn [GameWindow.game].
        etransitivity; [apply total_balls_update|exact Hw]. }
    specialize (IH _ _ (snd (GameWindow.handle e w rs')) Hstep).
    destruct (GameWindow.is_space e); cbn [length]; lia.
Qed.

End Window.

(** * Colors on the canvas *)

Section WindowColors.
Context `{PyLib}.
Import GameLogic.

Lemma add_ball_color_ok px py (g : t) (rs : rng) :
  randint_in_bounds ->
  color_ok (Ball.color (store (snd (fst (add_ball px py None g rs))) (next_ref g))).
Proof.
  intros Hrand. unfold add_ball.
  destruct (match px with Some v => _ | None => _ end) as [px' rs1].
  destruct (match py with Some v => _ | None => _ end) as [py' rs2].
  unfold Ball.init.
  pose proof (Hrand 50 255 rs2 ltac:(lia)) as H1.
  destruct (random_randint 50 255 rs2) as [cr rs3].
  pose proof (Hrand 50 255 rs3 ltac:(lia)) as H2.
  destruct (random_randint 50 255 rs3) as [cg rs4].
  pose proof (Hrand 50 255 rs4 ltac:(lia)) as H3.
  destruct (random_randint 50 255 rs4) as [cb rs5].
  destruct (random_velocity 1 3 rs5) as [v rs6].
  cbn [fst snd store] in *. rewrite fn_lookup_insert. cbn [Ball.color].
  unfold color_ok, channel_ok. lia.
Qed.

Lemma colors_ok_add_ball px py (g : t) (rs : rng) :
  randint_in_bounds -> owned g -> colors_ok g ->
  colors_ok (snd (fst (add_ball px py None g rs))).
Proof.
  intros Hrand [_ Hlt] Hok r.
  destruct (add_ball_spec px py None g rs) as (_ & Eb & Ei & _ & Ho & _).
  rewrite Eb, Ei, <- app_assoc, elem_of_app, elem_of_app.
  intros [Hin|[Hin|Hin]].
  - rewrite Ho; [apply Hok; apply elem_of_app; auto|].
    assert (r < next_ref g)%nat by (apply Hlt; apply elem_of_app; auto). lia.
  - apply list_elem_of_singleton in Hin as ->. apply add_ball_color_ok, Hrand.
  - rewrite Ho; [apply Hok; apply elem_of_app; auto|].
    assert (r < next_ref g)%nat by (apply Hlt; apply elem_of_app; auto). lia.
Qed.

Lemma colors_ok_eject_ball mx my vel (g : t) (rs : rng) :
  colors_ok g -> colors_ok (snd (fst (eject_ball mx my vel g rs))).
Proof.
  intros Hok.
  destruct (inventory g) as [|b inv _] eqn:E using rev_ind.
  - rewrite eject_ball_empty by assumption. exact Hok.
  - destruct (eject_ball_snoc mx my vel g rs inv b E)
      as (_ & Eb & Ei & _ & _ & _ & _ & _ & Ecol & Ho & _).
    intros r. rewrite Eb, Ei. intros Hin.
    assert (Hold : r ∈ balls g ++ inventory g).
    { rewrite E. rewrite !elem_of_app in *. tauto. }
    destruct (decide (r = b)) as [->|Hne].
    + rewrite Ecol. apply Hok, Hold.
    + rewrite Ho by assumption. apply Hok, Hold.
Qed.

Lemma colors_ok_update (g : t) : colors_ok g -> colors_ok (update g).
Proof.
  intros Hok r Hin. apply update_colors_ok; [exact Hok|].
  destruct (update_lists g) as (Eb & Ei & _).
  rewrite <- (before_check_perm g).
  rewrite Eb, Ei in Hin. apply elem_of_app in Hin as [Hin|Hin]; apply elem_of_app.
  - apply list_elem_of_filter in Hin. tauto.
  - auto.
Qed.

Lemma handle_colors_ok (e : GameWindow.event) (w : GameWindow.t) (rs : rng) :
  randint_in_bounds ->
  reachable (GameWindow.game w) /\ colors_ok (GameWindow.game w) ->
  reachable (GameWindow.game (fst (GameWindow.handle e w rs)))
  /\ colors_ok (GameWindow.game (fst (GameWindow.handle e w rs))).
Proof.
  intros Hrand [Hr Hok]. split; [apply handle_reachable, Hr|].
  destruct e as [ex ey|ex ey|ex ey|ex ey| |]; cbn [GameWindow.handle fst].
  - exact Hok.
  - exact Hok.
  - unfold GameWindow.on_mouse_move. cbn [GameWindow.game].
    destruct (GameWindow.mouse_pressed w); exact Hok.
  - apply colors_ok_eject_ball, Hok.
  - apply colors_ok_add_ball; [exact Hrand|apply reachable_owned, Hr|exact Hok].
  - apply colors_ok_update, Hok.
Qed.

(** When [random.randint] keeps to its bounds, every ball a session holds
    has color channels in 0..255, so each color the window passes to the
    canvas is [#] followed by six hexadecimal digits. *)
Theorem window_colors_well_formed (events : list GameWindow.event) (rs : rng) :
  randint_in_bounds ->
  forall r,
    r ∈ balls (GameWindow.game (GameWindow.session events rs))
        ++ inventory (GameWindow.game (GameWindow.session events rs)) ->
    color_ok (Ball.color (store (GameWindow.game (GameWindow.session events rs)) r))
    /\ String.length
         (GameWindow.rgb_to_hex
            (Ball.color (store (GameWindow.game (GameWindow.session events rs)) r)))
       = 7%nat.
Proof.
  intros Hrand.
  assert (Hinv : reachable (GameWindow.game (GameWindow.session events rs))
                 /\ colors_ok (GameWindow.game (GameWindow.session events rs))).
  { unfold GameWindow.session.
    apply (run_invariant
             (fun w => reachable (GameWindow.game w) /\ colors_ok (GameWindow.game w))).
    - intros e w rs'. apply handle_colors_ok, Hrand.
    - split; [apply init_reachable|].
      unfold GameWindow.init. cbn [fst GameWindow.update GameWindow.game].
      apply colors_ok_update.
      apply (starting_balls_invariant (fun g => reachable g /\ colors_ok g)).
      + intros g rs' [Hr Hok]. split; [apply reach_add_ball, Hr|].
        apply colors_ok_add_ball; [exact Hrand|apply reachable_owned, Hr|exact Hok].
      + split; [apply reach_init|]. intros r Hr. inversion Hr. }
  destruct Hinv as [_ Hok]. intros r Hr. specialize (Hok r Hr).
  split; [exact Hok|].
  destruct (Ball.color _) as [[cr cg] cb].
  rewrite rgb_to_hex_two_digits by exact Hok. reflexivity.
Qed.

End WindowColors.

(** * A ball and its own center *)

Lemma is_finite_cases (x : float) :
  is_finite x = true ->
  (exists s, Prim2SF x = S754_zero s) \/ (exists s m e, Prim2SF x = S754_finite s m e).
Proof.
  unfold is_finite, is_nan, is_infinity. rewrite !FloatAxioms.eqb_spec, abs_spec.
  change (Prim2SF infinity) with (S754_infinity false).
  destruct (Prim2SF x) as [s|s| |s m e]; cbn; intros Hx.
  - left. eexists. reflexivity.
  - destruct s; discriminate.
  - discriminate.
  - right. do 3 eexists. reflexivity.
Qed.

Lemma float_sub_self (x : float) : is_finite x = true -> (x - x)%float = 0%float.
Proof.
  intros Hx. apply Prim2SF_inj. rewrite sub_spec.
  change (Prim2SF 0) with (S754_zero false).
  destruct (is_finite_cases x Hx) as [[s ->]|(s & m & e & ->)].
  - destruct s; reflexivity.
  - unfold SF64sub, SFsub. rewrite Z.min_id, Z.sub_diag. reflexivity.
Qed.

Lemma center_is_inside (b : Ball.t) :
  is_finite (Ball.x b) = true -> is_finite (Ball.y b) = true ->
  Ball.radius b = Ball.default_radius ->
  Ball.is_point_inside b (Ball.x b) (Ball.y b) = true.
Proof.
  intros Hx Hy Hr. unfold Ball.is_point_inside. cbv zeta.
  rewrite (float_sub_self _ Hx), (float_sub_self _ Hy), Hr.
  vm_compute. reflexivity.
Qed.

Lemma center_is_swallowed (b : Ball.t) :
  is_finite (Ball.x b) = true -> is_finite (Ball.y b) = true ->
  Ball.radius b = Ball.default_radius ->
  GameLogic.swallowed 100 (Ball.x b, Ball.y b) b = true.
Proof.
  intros Hx Hy Hr.
  unfold GameLogic.swallowed, GameLogic.suction_distance. cbv zeta. cbn [fst snd].
  rewrite (float_sub_self _ Hx), (float_sub_self _ Hy), Hr.
  vm_compute. reflexivity.
Qed.

Section Center.
Context `{PyLib}.
Import GameLogic.

(** In a reachable state, the center of an active ball with finite
    coordinates is inside that ball, so [get_ball_at_position] at this
    point finds a ball. *)
Theorem ball_contains_its_center (g : t) (r : ref) :
  reachable g -> r ∈ balls g ->
  is_finite (Ball.x (store g r)) = true ->
  is_finite (Ball.y (store g r)) = true ->
  Ball.is_point_inside (store g r) (Ball.x (store g r)) (Ball.y (store g r)) = true
  /\ is_Some (get_ball_at_position g (Ball.x (store g r)) (Ball.y (store g r))).
Proof.
  intros Hreach Hr Hx Hy.
  assert (Hin : Ball.is_point_inside (store g r) (Ball.x (store g r))
                  (Ball.y (store g r)) = true).
  { apply center_is_inside; [exact Hx|exact Hy|].
    apply (reachable_radius g Hreach). apply elem_of_app. auto. }
  split; [exact Hin|].
  unfold get_ball_at_position.
  destruct (filter _ (balls g)) as [|r' l] eqn:E.
  - exfalso. apply (filter_nil_not_elem_of _ _ r E); assumption.
  - eexists. reflexivity.
Qed.

(** In a reachable state, an active ball with finite coordinates whose
    center is the suction focus is swallowed by [_process_suction]: it
    leaves [balls] and is in [inventory]. *)
Theorem ball_at_focus_is_swallowed (g : t) (r : ref) :
  reachable g -> r ∈ balls g ->
  is_finite (Ball.x (store g r)) = true ->
  is_finite (Ball.y (store g r)) = true ->
  suction_mouse_pos g = (Ball.x (store g r), Ball.y (store g r)) ->
  (r ∉ balls (_process_suction g)) /\ r ∈ inventory (_process_suction g).
Proof.
  intros Hreach Hr Hx Hy Hfocus.
  destruct (process_suction_spec g) as (-> & -> & _).
  destruct (reachable_configured g Hreach) as (_ & _ & _ & ->).
  assert (Hsw : swallowed 100 (suction_mouse_pos g) (store g r) = true).
  { rewrite Hfocus. apply center_is_swallowed; [exact Hx|exact Hy|].
    apply (reachable_radius g Hreach). apply elem_of_app. auto. }
  split.
  - intros Hin. apply list_elem_of_filter in Hin as [Hn _]. contradiction.
  - apply elem_of_app. right. apply list_elem_of_filter. auto.
Qed.

End Center.

(** * The properties at concrete inputs *)

Lemma focus_state_reachable : GameLogic.reachable (H := fixed_lib) focus_state.
Proof. repeat constructor. Qed.

Lemma fixed_lib_randint : randint_in_bounds (H := fixed_lib).
Proof. intros lo hi rs Hle. cbn. lia. Qed.

(** [radius_is_fixed] at [frame_state]. *)
Lemma radius_is_fixed_witness :
  GameLogic.reachable (H := fixed_lib) frame_state
  /\ forall r, r ∈ GameLogic.balls frame_state ++ GameLogic.inventory frame_state ->
       Ball.radius (GameLogic.store frame_state r) = Ball.default_radius.
Proof.
  split; [exact frame_state_reachable|].
  exact (proj2 (radius_is_fixed frame_state frame_state_reachable)).
Defined.

(** [update_keeps_colors_in_range] at [frame_state], whose balls are red
    and blue. *)
Lemma update_keeps_colors_in_range_witness :
  colors_ok frame_state
  /\ forall r, r ∈ GameLogic.balls frame_state ++ GameLogic.inventory frame_state ->
       color_ok (Ball.color (GameLogic.store (GameLogic.update frame_state) r)).
Proof.
  assert (Hok : colors_ok frame_state).
  { intros r Hr.
    rewrite (proj1 frame_state_lists), (proj1 (proj2 frame_state_lists)) in Hr.
    apply elem_of_app in Hr as [Hr|Hr]; [|inversion Hr].
    apply elem_of_cons in Hr as [->|Hr]; [apply color_ok_intro; reflexivity|].
    apply list_elem_of_singleton in Hr as ->. apply color_ok_intro; reflexivity. }
  split; [exact Hok|].
  exact (update_keeps_colors_in_range frame_state Hok).
Defined.

(** [update_without_suction] at [frame_state] after [stop_suction]. *)
Lemma update_without_suction_witness :
  GameLogic.suction_active (GameLogic.stop_suction frame_state) = false
  /\ GameLogic.inventory (GameLogic.update (GameLogic.stop_suction frame_state))
     = GameLogic.inventory (GameLogic.stop_suction frame_state).
Proof.
  split; [reflexivity|].
  exact (proj1 (update_without_suction (GameLogic.stop_suction frame_state) eq_refl)).
Defined.

(** [eject_each_reverses] at [swallowed_state], whose inventory holds one
    ball, with one right click. *)
Lemma eject_each_reverses_witness :
  GameLogic.inventory swallowed_state = [] ++ [0%nat]
  /\ GameLogic.balls
       (fst (eject_each (H := fixed_lib) [(300%float, 300%float, None)]
               swallowed_state tt))
     = GameLogic.balls swallowed_state ++ reverse [0%nat].
Proof.
  assert (E : GameLogic.inventory swallowed_state = [] ++ [0%nat])
    by (vm_compute; reflexivity).
  split; [exact E|].
  exact (proj1 (eject_each_reverses (H := fixed_lib)
                  [(300%float, 300%float, None)] swallowed_state tt [] [0%nat]
                  E eq_refl)).
Defined.

(** [window_colors_well_formed] at [short_session] with the fixed library. *)
Lemma window_colors_well_formed_witness :
  randint_in_bounds (H := fixed_lib)
  /\ forall r,
       r ∈ GameLogic.balls
             (GameWindow.game (GameWindow.session (H := fixed_lib) short_session tt))
           ++ GameLogic.inventory
                (GameWindow.game (GameWindow.session (H := fixed_lib) short_session tt)) ->
       color_ok
         (Ball.color
            (GameLogic.store
               (GameWindow.game (GameWindow.session (H := fixed_lib) short_session tt))
               r))
       /\ String.length
            (GameWindow.rgb_to_hex
               (Ball.color
                  (GameLogic.store
                     (GameWindow.game
                        (GameWindow.session (H := fixed_lib) short_session tt)) r)))
          = 7%nat.
Proof.
  split; [exact fixed_lib_randint|].
  exact (window_colors_well_formed (H := fixed_lib) short_session tt fixed_lib_randint).
Defined.

(** [ball_contains_its_center] at the ball of [focus_state]. *)
Lemma ball_contains_its_center_witness :
  GameLogic.reachable (H := fixed_lib) focus_state
  /\ 0%nat ∈ GameLogic.balls focus_state
  /\ is_Some (GameLogic.get_ball_at_position focus_state
                (Ball.x (GameLogic.store focus_state 0%nat))
                (Ball.y (GameLogic.store focus_state 0%nat))).
Proof.
  assert (Hin : 0%nat ∈ GameLogic.balls focus_state) by (apply elem_of_cons; auto).
  split; [exact focus_state_reachable|]. split; [exact Hin|].
  exact (proj2 (ball_contains_its_center (H := fixed_lib) focus_state 0%nat
                  focus_state_reachable Hin eq_refl eq_refl)).
Defined.

(** [ball_at_focus_is_swallowed] at the ball of [focus_state]. *)
Lemma ball_at_focus_is_swallowed_witness :
  GameLogic.reachable (H := fixed_lib) focus_state
  /\ 0%nat ∈ GameLogic.balls focus_state
  /\ 0%nat ∈ GameLogic.inventory (GameLogic._process_suction focus_state).
Proof.
  assert (Hin : 0%nat ∈ GameLogic.balls focus_state) by (apply elem_of_cons; auto).
  split; [exact focus_state_reachable|]. split; [exact Hin|].
  exact (proj2 (ball_at_focus_is_swallowed (H := fixed_lib) focus_state 0%nat
                  focus_state_reachable Hin eq_refl eq_refl eq_refl)).
Defined.
